(** * openrazer, driver/razercommon.c: report checksum, key-translation
      registry and USB control transfers.

    The development follows the C file top to bottom in three modules:
    - [Codec]: the 90-byte report seen as raw bytes and [razer_calculate_crc];
    - [Registry]: the per-device key translations ([razer_set_translations],
      [razer_get_translations], [razer_get_translation]);
    - [Transport]: [razer_send_control_msg] and [razer_get_usb_response] as
      programs over the kernel calls they make.

    Conventions.  [unsigned char] data is [Byte.byte]; C integers are [Z];
    [size_t] counters that only index arrays are [nat].  A C array together
    with the field that records its length is a Rocq list. *)

From Stdlib Require Import ZArith List Lia Strings.Byte String.
From stdpp Require Import base option list.

Local Open Scope Z_scope.

(** ** Bytes *)

Definition Z_of_byte (b : byte) : Z := Z.of_N (Byte.to_N b).

(** Storing a C integer into an [unsigned char]: reduction modulo 256. *)
Definition byte_of_Z (z : Z) : byte :=
  default x00 (Byte.of_N (Z.to_N (z mod 256))).

(** [memcpy (dst, src, n)] on byte sequences: the first [n] bytes of [dst]
    are replaced by the first [n] bytes of [src]. *)
Definition memcpy (dst src : list byte) (n : nat) : list byte :=
  take n src ++ drop n dst.

(** ** Report codec *)

Module Codec.

(** [struct razer_report] is 90 bytes; the functions below only look at it
    through an [unsigned char *], so a report is its byte image. *)
Abbreviation razer_report := (list byte).

(** Modelled from the spec: [sizeof (struct razer_report)] and
    [RAZER_USB_REPORT_LEN] come from razercommon.h; the frame is "exactly 90
    bytes". *)
Definition RAZER_USB_REPORT_LEN : Z := 90.
Definition sizeof_razer_report : nat := 90.

(** One turn of the loop body [crc ^= _report[i]]; the result is stored back
    into an [unsigned char]. *)
Definition crc_step (_report : razer_report) (crc : Z) (i : nat) : Z :=
  (Z.lxor crc (Z_of_byte (nth i _report x00))) mod 256.

(** [for (i = 2; i < 88; i++) crc ^= _report[i];] starting from [crc = 0]. *)
Definition razer_calculate_crc (report : razer_report) : Z :=
  fold_left (crc_step report) (seq 2 86) 0.

(** The specification's wording: the XOR-fold of the bytes at offsets 2
    through 87 inclusive. *)
Definition xor_fold (bs : list byte) : Z :=
  fold_right (fun b acc => Z.lxor (Z_of_byte b) acc) 0 bs.

Definition checksum_window (report : razer_report) : list byte :=
  take 86 (drop 2 report).

(** A sample frame: class 3, command 3, three arguments; its checksum,
    0xfb, is stored at offset 88. *)
Definition sample_report : razer_report :=
  [x00; xff; x00; x00; x00; x03; x03; x00; x01; x05; xff]
  ++ replicate 77 x00 ++ [xfb; x00].

End Codec.

(** ** Key-translation registry *)

Module Registry.

(** Modelled from the spec: [struct razer_key_translation] is declared in
    razercommon.h; it has [from] (u16), [to] (u16) and [flags] (u8), in that
    order, so the two keycodes occupy its first four bytes. *)
Record razer_key_translation := {
  from : Z;
  to : Z;
  flags : Z
}.

(** [struct razer_device_translations] (razercommon.h) as the source uses
    it, without its [list_head]: the device id and the array [translations];
    the field [length] is the length of the list. *)
Record razer_device_translations := {
  dev_id : Z;
  dev_translations : list razer_key_translation
}.

(** The list anchored at [translations->list], in the order in which
    [list_for_each_entry] visits it.  A pointer to a member is its position. *)
Abbreviation registry := (list razer_device_translations).

(** What the registry functions do to the kernel besides updating the list:
    allocations, releases and log lines.  [kzalloc] is taken to succeed, as
    the source never tests its result in these functions. *)
Inductive kobject :=
| device_struct (d : razer_device_translations)
| translations_array (n : nat)
| key_translation (e : razer_key_translation).

Inductive kevent :=
| kzalloc (o : kobject)
| kfree (o : kobject)
| printk (fmt : string) (args : list Z).

(** A u16 as it lies in memory (little-endian host) and back. *)
Definition u16_of_bytes (lo hi : byte) : Z := Z_of_byte lo + 256 * Z_of_byte hi.
Definition u16_lo (v : Z) : byte := byte_of_Z (v mod 256).
Definition u16_hi (v : Z) : byte := byte_of_Z (v / 256).

(** [memcpy (e, src, 4)]: overwrite [from] and [to], keep [flags]. *)
Definition memcpy_to_translation (e : razer_key_translation) (src : list byte)
  : razer_key_translation :=
  {| from := u16_of_bytes (nth 0 src x00) (nth 1 src x00);
     to := u16_of_bytes (nth 2 src x00) (nth 3 src x00);
     flags := flags e |}.

(** The first four bytes of an entry, as [memcpy (dst, e, 4)] reads them. *)
Definition translation_bytes (e : razer_key_translation) : list byte :=
  [u16_lo (from e); u16_hi (from e); u16_lo (to e); u16_hi (to e)].

Definition set_flags (v : Z) (e : razer_key_translation) : razer_key_translation :=
  {| from := from e; to := to e; flags := v |}.

Definition set_translations (trs : list razer_key_translation)
    (d : razer_device_translations) : razer_device_translations :=
  {| dev_id := dev_id d; dev_translations := trs |}.

(** A block fresh from [kzalloc]. *)
Definition zero_translation : razer_key_translation :=
  {| from := 0; to := 0; flags := 0 |}.

Definition razer_init_translations : registry := [].

Definition sizeof_u8 : nat := 1.
Definition sizeof_u16 : nat := 2.

(** A pointer into the list is a position; it is returned together with the
    member it points to.  First member whose id matches, or NULL. *)
Fixpoint razer_get_device (translations : registry) (id : Z)
  : option (nat * razer_device_translations) :=
  match translations with
  | [] => None
  | ptr :: rest =>
      if dev_id ptr =? id then Some (0%nat, ptr)
      else (fun '(i, d) => (S i, d)) <$> razer_get_device rest id
  end.

(** [kfree] of every entry, then of the array. *)
Definition razer_free_translations (translations : razer_device_translations)
  : list kevent :=
  map (fun e => kfree (key_translation e)) (dev_translations translations)
  ++ [kfree (translations_array (length (dev_translations translations)))].

(** A zeroed array of [length] pointers, then one zeroed entry for each. *)
Definition razer_alloc_translations (translations : razer_device_translations)
    (length : nat) : razer_device_translations * list kevent :=
  (set_translations (replicate length zero_translation) translations,
   kzalloc (translations_array length)
   :: replicate length (kzalloc (key_translation zero_translation))).

(** Number of members with this id, counted in a [u8]. *)
Definition razer_count_translations (translations : registry) (id : Z) : Z :=
  fold_left (fun i ptr => if dev_id ptr =? id then (i + 1) mod 256 else i)
            translations 0.

(** Body of the loop "bindings set":
    [memcpy (it->translations[offset], buf + offset * bindingSize, bindingSize);
     it->translations[offset]->flags = 0;] *)
Definition set_binding (buf : list byte) (bindingSize : nat)
    (trs : list razer_key_translation) (offset : nat)
  : list razer_key_translation :=
  alter (fun e => set_flags 0
                    (memcpy_to_translation e (drop (offset * bindingSize) buf)))
        offset trs.

(** [razer_set_translations (translations, id, buf, count)] with
    [count = length buf].  The result is the return value, the list afterwards
    and the kernel calls made; [None] stands for a NULL [it] after the second
    lookup, which the last loop would dereference. *)
Definition razer_set_translations (translations : registry) (id : Z)
    (buf : list byte) : option (Z * registry * list kevent) :=
  let count := length buf in
  let bindingSize := (sizeof_u16 * 2)%nat in
  let bindingsCount := (count / bindingSize)%nat in
  match (if (count =? sizeof_u8)%nat then razer_get_device translations id
         else None) with
  | Some (it, d) =>
      (* here we delete bindings for device *)
      let translations := delete it translations in
      Some (1, translations,
            razer_free_translations d
            ++ [kfree (device_struct d);
                printk "razercommon: [Translations] clear translations for device %d count %d should be 0!\n"
                       [id; razer_count_translations translations id]])
  | None =>
      (* here we check buffer is pairs of u16 *)
      if negb (count mod sizeof_u16 =? 0)%nat then Some (2, translations, [])
      else
        let '(translations, ev1) :=
          match razer_get_device translations id with
          | None =>
              (* here we allocate bindings if device dont have any *)
              let it := {| dev_id := id; dev_translations := [] |} in
              let '(it, ev) := razer_alloc_translations it bindingsCount in
              (it :: translations,
               kzalloc (device_struct {| dev_id := 0; dev_translations := [] |})
               :: ev)
          | Some _ => (translations, [])
          end in
        '(it, d) ← razer_get_device translations id;
        let '(d, ev2) :=
          if negb (length (dev_translations d) =? bindingsCount)%nat then
            (* count of existing bindings is different than new *)
            let '(d', ev) := razer_alloc_translations d bindingsCount in
            (d', razer_free_translations d ++ ev)
          else (d, []) in
        (* bindings set *)
        let d := set_translations
                   (fold_left (set_binding buf bindingSize)
                              (seq 0 bindingsCount) (dev_translations d)) d in
        let translations := <[it := d]> translations in
        Some (0, translations,
              ev1 ++ ev2
              ++ [printk "razercommon: [Translations] %d is count of translations for device id %d\n"
                         [razer_count_translations translations id; id]])
  end.

(** Memory reachable from a [char *]: a byte at every offset. *)
Definition buffer := nat -> byte.

(** [memcpy (buf + off, src, length src)]. *)
Definition store_bytes (buf : buffer) (off : nat) (src : list byte) : buffer :=
  fun i => if decide (off <= i < off + length src)%nat
           then nth (i - off) src x00 else buf i.

(** Body of the dump loop:
    [memcpy (buf + offset * bindingSize, device->translations[offset], bindingSize);
     size += bindingSize;] *)
Definition dump_binding (trs : list razer_key_translation) (bindingSize : nat)
    (acc : buffer * nat) (offset : nat) : buffer * nat :=
  let '(buf, size) := acc in
  (store_bytes buf (offset * bindingSize)
     (take bindingSize (translation_bytes (nth offset trs zero_translation))),
   (size + bindingSize)%nat).

(** [razer_get_translations (translations, id, buf)]: the buffer afterwards
    and the returned length. *)
Definition razer_get_translations (translations : registry) (id : Z)
    (buf : buffer) : buffer * nat :=
  let bindingSize := (sizeof_u16 * 2)%nat in
  match razer_get_device translations id with
  | Some (_, device) =>
      fold_left (dump_binding (dev_translations device) bindingSize)
                (seq 0 (length (dev_translations device))) (buf, 0%nat)
  | None =>
      (* strcpy (buf, "\0") copies the terminating NUL only *)
      (store_bytes buf 0 [x00], 1%nat)
  end.

(** The scan of [razer_get_translation] from position [i] on. *)
Fixpoint scan_translations (trs : list razer_key_translation) (key : Z)
    (i : nat) : option (nat * razer_key_translation) :=
  match trs with
  | [] => None
  | e :: rest =>
      if from e =? key then Some (i, e)
      else scan_translations rest key (S i)
  end.

(** [razer_get_translation (translations, id, key)]: the entry found, with its
    position in the device's array, or NULL. *)
Definition razer_get_translation (translations : registry) (id key : Z)
  : option (nat * razer_key_translation) :=
  match razer_get_device translations id with
  | Some (_, device) => scan_translations (dev_translations device) key 0
  | None => None
  end.

(** A sequence of writes, each an id and a buffer, applied in order. *)
Fixpoint write_all (translations : registry) (writes : list (Z * list byte))
  : option registry :=
  match writes with
  | [] => Some translations
  | (id, buf) :: rest =>
      '(_, translations, _) ← razer_set_translations translations id buf;
      write_all translations rest
  end.

(** The specification's wording of a bulk write: entry number [offset]
    takes its [from] and [to] from the buffer positionally, two u16 per
    entry, and has [flags] 0. *)
Definition binding_at (buf : list byte) (offset : nat) : razer_key_translation :=
  {| from := u16_of_bytes (nth (4 * offset) buf x00)
                          (nth (4 * offset + 1) buf x00);
     to := u16_of_bytes (nth (4 * offset + 2) buf x00)
                        (nth (4 * offset + 3) buf x00);
     flags := 0 |}.

Definition bindings_of_buffer (buf : list byte) (n : nat)
  : list razer_key_translation :=
  map (binding_at buf) (seq 0 n).

(** The set for [id] now holds [trs]: in place when the id is bound, as a
    new first member otherwise. *)
Definition replace_bindings (translations : registry) (id : Z)
    (trs : list razer_key_translation) : registry :=
  match razer_get_device translations id with
  | Some (it, d) => <[it := set_translations trs d]> translations
  | None => {| dev_id := id; dev_translations := trs |} :: translations
  end.

(** Registry invariants. *)
Definition distinct_ids (translations : registry) : Prop :=
  NoDup (dev_id <$> translations).

Definition no_empty_set (translations : registry) : Prop :=
  Forall (fun d => dev_translations d <> []) translations.

(** Buffer lengths that are either rejected as odd or a positive multiple
    of the binding size. *)
Definition odd_or_whole_bindings (write : Z * list byte) : Prop :=
  (length (snd write) mod 2 = 1)%nat
  \/ ((length (snd write) mod 4 = 0)%nat /\ (0 < length (snd write))%nat).

(** Sample data: the write of the protocol comment (keys 2 -> 0x1E and
    3 -> 0x30), a registry with a repeated source key, a sequence of writes. *)
Definition naga_buffer : list byte :=
  [x02; x00; x1e; x00; x03; x00; x30; x00].

Definition naga_device : razer_device_translations :=
  {| dev_id := 7;
     dev_translations := [{| from := 2; to := 30; flags := 0 |};
                          {| from := 2; to := 31; flags := 0 |};
                          {| from := 3; to := 48; flags := 0 |}] |}.

Definition naga_writes : list (Z * list byte) :=
  [(7, naga_buffer); (8, [x04; x00; x05; x00]); (7, [x00]);
   (8, [x01; x02; x03]); (9, [xff])].

(** One turn of [list_for_each_entry_safe] in [razer_cleanup_translations]:
    [razer_free_translations (ptr); list_del (&ptr->list); kfree (ptr);]
    The member visited is the first of what is still linked. *)
Definition cleanup_step (acc : registry * list kevent)
    (ptr : razer_device_translations) : registry * list kevent :=
  let '(translations, ev) := acc in
  (delete 0%nat translations,
   ev ++ razer_free_translations ptr ++ [kfree (device_struct ptr)]).

(** [razer_cleanup_translations (translations)]: the list afterwards and the
    kernel calls made. *)
Definition razer_cleanup_translations (translations : registry)
  : registry * list kevent :=
  match translations with
  | [] => (translations, [])
  | _ => fold_left cleanup_step translations (translations, [])
  end.

(** A sequence of writes with the kernel calls they make, in order. *)
Fixpoint write_all_events (translations : registry)
    (writes : list (Z * list byte)) : option (registry * list kevent) :=
  match writes with
  | [] => Some (translations, [])
  | (id, buf) :: rest =>
      '(_, translations, ev) ← razer_set_translations translations id buf;
      '(translations, ev') ← write_all_events translations rest;
      Some (translations, ev ++ ev')
  end.

(** Counting allocations and releases in a trace, and the heap blocks a
    registry holds: for each member its struct, its array and its entries. *)
Definition is_kzalloc (e : kevent) : bool :=
  match e with kzalloc _ => true | _ => false end.

Definition is_kfree (e : kevent) : bool :=
  match e with kfree _ => true | _ => false end.

Definition kzalloc_count (ev : list kevent) : nat :=
  length (List.filter is_kzalloc ev).

Definition kfree_count (ev : list kevent) : nat :=
  length (List.filter is_kfree ev).

Definition blocks_of (d : razer_device_translations) : nat :=
  (2 + length (dev_translations d))%nat.

Definition live_blocks (translations : registry) : nat :=
  sum_list (blocks_of <$> translations).

End Registry.

(** ** USB transport *)

Module Transport.

Import Codec.

(** Constants of the kernel headers (linux/hid.h, linux/usb/ch9.h,
    linux/usb.h, errno).  The source repeats the first four in comments. *)
Definition HID_REQ_GET_REPORT : Z := 0x01.
Definition HID_REQ_SET_REPORT : Z := 0x09.
Definition USB_TYPE_CLASS : Z := 0x20.
Definition USB_RECIP_INTERFACE : Z := 0x01.
Definition USB_DIR_OUT : Z := 0.
Definition USB_DIR_IN : Z := 0x80.
Definition USB_CTRL_SET_TIMEOUT : Z := 5000.
Definition EIO : Z := 5.
Definition ENOMEM : Z := 12.

(** Comparing an [int] with a [uint] converts the [int] to [unsigned]. *)
Definition uint_of_int (z : Z) : Z := z mod 2 ^ 32.
Definition int_range (z : Z) : Prop := - 2 ^ 31 <= z < 2 ^ 31.

(** A heap block returned by the allocator. *)
Definition ptr := nat.

Inductive pipe :=
| usb_sndctrlpipe (usb_dev : nat) (endpoint : Z)
| usb_rcvctrlpipe (usb_dev : nat) (endpoint : Z).

(** The arguments of [usb_control_msg]; [data] is the transfer buffer, its
    block and current contents. *)
Record control_msg := {
  msg_dev : nat;
  msg_pipe : pipe;
  msg_request : Z;
  msg_requesttype : Z;
  msg_value : Z;
  msg_index : Z;
  msg_data : ptr * list byte;
  msg_size : Z;
  msg_timeout : Z
}.

(** The kernel services the two functions call, indexed by what they give
    back.  The allocators return NULL ([None]) or a block.
    [usb_control_msg] returns its [int] result and the bytes the host
    controller stored at the start of the buffer (none for an OUT transfer). *)
Inductive kcall : Type -> Type :=
| kmemdup (src : list byte) (len : Z) : kcall (option ptr)
| kzalloc (size : nat) : kcall (option ptr)
| usb_control_msg (m : control_msg) : kcall (Z * list byte)
| usleep_range (min max : Z) : kcall unit
| kfree (p : ptr) : kcall unit
| printk (fmt : string) (args : list Z) : kcall unit.

(** Programs over these calls. *)
Inductive kprog (A : Type) : Type :=
| Ret (a : A)
| Call {X : Type} (c : kcall X) (k : X -> kprog A).

Arguments Ret {A} a.
Arguments Call {A X} c k.

Fixpoint bind {A B : Type} (m : kprog A) (f : A -> kprog B) : kprog B :=
  match m with
  | Ret a => f a
  | Call c k => Call c (fun x => bind (k x) f)
  end.

Definition call {X : Type} (c : kcall X) : kprog X := Call c Ret.

Declare Scope kprog_scope.
Delimit Scope kprog_scope with kprog.
Notation "x <- m ;; k" := (bind m (fun x => k))
  (at level 20, m at level 99, k at level 200, only parsing) : kprog_scope.
Notation "' p <- m ;; k" := (bind m (fun x => match x with p => k end))
  (at level 20, p pattern, m at level 99, k at level 200, only parsing)
  : kprog_scope.
Notation "m ;; k" := (bind m (fun _ => k))
  (at level 100, k at level 200, right associativity, only parsing)
  : kprog_scope.

(** One call together with what it returned. *)
Inductive event :=
| Event : forall X : Type, kcall X -> X -> event.

Arguments Event {X} c x.

(** Running a program against an environment: [handle] answers each call
    and moves the world on.  The run yields the result, the final world and
    the calls made, in order. *)
Section Run.

Context {world : Type}.
Variable handle : forall X, kcall X -> world -> X * world.

Fixpoint run {A : Type} (p : kprog A) (w : world) : A * world * list event :=
  match p with
  | Ret a => (a, w, [])
  | Call c k =>
      let '(x, w1) := handle _ c w in
      let '(a, w2, tr) := run (k x) w1 in
      (a, w2, Event c x :: tr)
  end.

End Run.

(** Buffer contents after the controller stored [received] at its start. *)
Definition receive_into (contents received : list byte) : list byte :=
  take (length contents) (received ++ drop (length received) contents).

Local Open Scope kprog_scope.

Definition razer_send_control_msg (usb_dev : nat) (data : list byte)
    (report_index wait_min wait_max : Z) : kprog Z :=
  let request := HID_REQ_SET_REPORT in
  let request_type :=
    Z.lor (Z.lor USB_TYPE_CLASS USB_RECIP_INTERFACE) USB_DIR_OUT in
  let value := 0x300 in
  let size := RAZER_USB_REPORT_LEN in
  buf <- call (kmemdup data size) ;;
  match buf with
  | None => Ret (- ENOMEM)
  | Some buf =>
      let contents := take (Z.to_nat size) data in
      (* Send usb control message *)
      '(len, _) <- call (usb_control_msg
                           {| msg_dev := usb_dev;
                              msg_pipe := usb_sndctrlpipe usb_dev 0;
                              msg_request := request;
                              msg_requesttype := request_type;
                              msg_value := value;
                              msg_index := report_index;
                              msg_data := (buf, contents);
                              msg_size := size;
                              msg_timeout := USB_CTRL_SET_TIMEOUT |}) ;;
      (* Wait *)
      call (usleep_range wait_min wait_max) ;;
      call (kfree buf) ;;
      (if negb (uint_of_int len =? size)
       then call (printk "razer driver: Device data transfer failed." [])
       else Ret tt) ;;
      Ret (if len <? 0 then len
           else if negb (uint_of_int len =? size) then - EIO else 0)
  end.

(** The result and the caller's [response_report] afterwards. *)
Definition razer_get_usb_response (usb_dev : nat) (report_index : Z)
    (request_report : razer_report) (response_index : Z)
    (response_report : razer_report) (wait_min wait_max : Z)
  : kprog (Z * razer_report) :=
  let request := HID_REQ_GET_REPORT in
  let request_type :=
    Z.lor (Z.lor USB_TYPE_CLASS USB_RECIP_INTERFACE) USB_DIR_IN in
  let value := 0x300 in
  let size := RAZER_USB_REPORT_LEN in
  let result := 0 in
  buf <- call (kzalloc sizeof_razer_report) ;;
  match buf with
  | None => Ret (- ENOMEM, response_report)
  | Some buf =>
      let contents := replicate sizeof_razer_report x00 in
      (* Send the request to the device. *)
      retval <- razer_send_control_msg usb_dev request_report report_index
                  wait_min wait_max ;;
      (* Now ask for response *)
      '(len, received) <- call (usb_control_msg
                           {| msg_dev := usb_dev;
                              msg_pipe := usb_rcvctrlpipe usb_dev 0;
                              msg_request := request;
                              msg_requesttype := request_type;
                              msg_value := value;
                              msg_index := response_index;
                              msg_data := (buf, contents);
                              msg_size := size;
                              msg_timeout := USB_CTRL_SET_TIMEOUT |}) ;;
      let contents := receive_into contents received in
      let response_report :=
        memcpy response_report contents sizeof_razer_report in
      call (kfree buf) ;;
      (* Error if report is wrong length *)
      if negb (len =? 90) then
        call (printk "razer driver: Invalid USB response. USB Report length: %d\n"
                     [len]) ;;
        Ret (1, response_report)
      else Ret (result, response_report)
  end.

(** The two requests, as the functions build them. *)
Definition set_report_msg (usb_dev : nat) (report_index : Z) (buf : ptr)
    (data : list byte) : control_msg :=
  {| msg_dev := usb_dev;
     msg_pipe := usb_sndctrlpipe usb_dev 0;
     msg_request := 0x09;
     msg_requesttype := 0x21;
     msg_value := 0x300;
     msg_index := report_index;
     msg_data := (buf, take 90 data);
     msg_size := 90;
     msg_timeout := USB_CTRL_SET_TIMEOUT |}.

Definition get_report_msg (usb_dev : nat) (response_index : Z) (buf : ptr)
  : control_msg :=
  {| msg_dev := usb_dev;
     msg_pipe := usb_rcvctrlpipe usb_dev 0;
     msg_request := 0x01;
     msg_requesttype := 0xA1;
     msg_value := 0x300;
     msg_index := response_index;
     msg_data := (buf, replicate 90 x00);
     msg_size := 90;
     msg_timeout := USB_CTRL_SET_TIMEOUT |}.

(** The value [razer_send_control_msg] returns for a transfer result. *)
Definition send_status (len : Z) : Z :=
  if len <? 0 then len
  else if negb (uint_of_int len =? RAZER_USB_REPORT_LEN) then - EIO else 0.

(** Reading a trace: the results of the control transfers, the blocks handed
    out by the allocators, the blocks released. *)
Definition usb_result (e : event) : option Z :=
  match e with
  | Event c x =>
      match c in kcall X return X -> option Z with
      | usb_control_msg _ => fun r => Some (fst r)
      | _ => fun _ => None
      end x
  end.

Definition allocated_block (e : event) : option ptr :=
  match e with
  | Event c x =>
      match c in kcall X return X -> option ptr with
      | kmemdup _ _ => fun r => r
      | kzalloc _ => fun r => r
      | _ => fun _ => None
      end x
  end.

Definition freed_block (e : event) : option ptr :=
  match e with
  | Event c x =>
      match c in kcall X return X -> option ptr with
      | kfree p => fun _ => Some p
      | _ => fun _ => None
      end x
  end.

Definition usb_results (tr : list event) : list Z := omap usb_result tr.
Definition allocated (tr : list event) : list ptr := omap allocated_block tr.
Definition freed (tr : list event) : list ptr := omap freed_block tr.

(** A scripted environment for examples: the allocators and the control
    transfers answer from two queues, the other calls do nothing. *)
Record script := {
  script_alloc : list (option ptr);
  script_usb : list (Z * list byte)
}.

Definition scripted (X : Type) (c : kcall X) (w : script) : X * script :=
  match c in kcall X return X * script with
  | kmemdup _ _ | kzalloc _ =>
      (hd None (script_alloc w),
       {| script_alloc := tl (script_alloc w); script_usb := script_usb w |})
  | usb_control_msg _ =>
      (hd (- EIO, []) (script_usb w),
       {| script_alloc := script_alloc w; script_usb := tl (script_usb w) |})
  | usleep_range _ _ | kfree _ | printk _ _ => (tt, w)
  end.

(** A device that fails the SET_REPORT transfer and then answers the
    GET_REPORT with a full frame whose checksum byte is wrong. *)
Definition bad_crc_report : razer_report := <[88%nat := x00]> sample_report.

Definition failing_send_script : script :=
  {| script_alloc := [Some 1%nat; Some 2%nat];
     script_usb := [(- EIO, []); (90, bad_crc_report)] |}.

(** A device that takes the whole frame, and one that stalls the transfer. *)
Definition accepting_script : script :=
  {| script_alloc := [Some 1%nat]; script_usb := [(90, [])] |}.

Definition stalled_send_script : script :=
  {| script_alloc := [Some 1%nat]; script_usb := [(- 32, [])] |}.

(** A device that stalls both transfers. *)
Definition stalled_script : script :=
  {| script_alloc := [Some 1%nat; Some 2%nat];
     script_usb := [(- 32, []); (- 32, [])] |}.

(** [razer_send_control_msg_old_device]: the same exchange with the
    control-transfer value and the frame size chosen by the caller. *)
Definition razer_send_control_msg_old_device (usb_dev : nat)
    (data : list byte) (report_value report_index report_size : Z)
    (wait_min wait_max : Z) : kprog Z :=
  let request := HID_REQ_SET_REPORT in
  let request_type :=
    Z.lor (Z.lor USB_TYPE_CLASS USB_RECIP_INTERFACE) USB_DIR_OUT in
  buf <- call (kmemdup data report_size) ;;
  match buf with
  | None => Ret (- ENOMEM)
  | Some buf =>
      let contents := take (Z.to_nat report_size) data in
      (* Send usb control message *)
      '(len, _) <- call (usb_control_msg
                           {| msg_dev := usb_dev;
                              msg_pipe := usb_sndctrlpipe usb_dev 0;
                              msg_request := request;
                              msg_requesttype := request_type;
                              msg_value := report_value;
                              msg_index := report_index;
                              msg_data := (buf, contents);
                              msg_size := report_size;
                              msg_timeout := USB_CTRL_SET_TIMEOUT |}) ;;
      (* Wait *)
      call (usleep_range wait_min wait_max) ;;
      call (kfree buf) ;;
      (if negb (uint_of_int len =? report_size)
       then call (printk "razer driver: Device data transfer failed." [])
       else Ret tt) ;;
      Ret (if len <? 0 then len
           else if negb (uint_of_int len =? report_size) then - EIO else 0)
  end.


(** The order of the exchanges with the device in a trace: OUT transfers,
    IN transfers and waits. *)
Inductive io_tag := io_out | io_in | io_wait.

Definition io_of (e : event) : option io_tag :=
  match e with
  | Event c _ =>
      match c with
      | usb_control_msg m =>
          match msg_pipe m with
          | usb_sndctrlpipe _ _ => Some io_out
          | usb_rcvctrlpipe _ _ => Some io_in
          end
      | usleep_range _ _ => Some io_wait
      | _ => None
      end
  end.

Definition io_order (tr : list event) : list io_tag := omap io_of tr.


End Transport.

(** ** Numeric helpers *)

Module Clamp.

(** [clamp_u8] and [clamp_u16] have the same body; their arguments are
    unsigned and only compared. *)
Definition clamp_u8 (value min max : Z) : Z :=
  if value >? max then max
  else if value <? min then min
  else value.

Definition clamp_u16 (value min max : Z) : Z :=
  if value >? max then max
  else if value <? min then min
  else value.

End Clamp.

(** * Properties *)

(** ** Bytes *)

Lemma Z_of_byte_range b : 0 <= Z_of_byte b < 256.
Proof.
  unfold Z_of_byte. pose proof (Byte.to_N_bounded b). lia.
Qed.

Lemma byte_of_Z_of_byte b : byte_of_Z (Z_of_byte b) = b.
Proof.
  unfold byte_of_Z. rewrite Z.mod_small by apply Z_of_byte_range.
  unfold Z_of_byte. rewrite N2Z.id, Byte.of_to_N. reflexivity.
Qed.

Lemma Z_of_byte_inj b1 b2 : Z_of_byte b1 = Z_of_byte b2 -> b1 = b2.
Proof.
  intros H. rewrite <- (byte_of_Z_of_byte b1), <- (byte_of_Z_of_byte b2).
  now rewrite H.
Qed.

Lemma memcpy_all dst src n :
  length src = n -> length dst = n -> memcpy dst src n = src.
Proof.
  intros Hs Hd. unfold memcpy.
  rewrite take_ge, drop_ge, app_nil_r by lia. reflexivity.
Qed.

(** Equations between XOR expressions, bit by bit. *)
Ltac lxor_bits :=
  apply Z.bits_inj'; intros ?n ?Hn; rewrite ?Z.lxor_spec, ?Z.bits_0;
  repeat match goal with
         | |- context [Z.testbit ?a ?n] => destruct (Z.testbit a n)
         end;
  reflexivity.

(** XOR of two values that fit in 8 bits fits in 8 bits. *)
Lemma lxor_u8_range a b :
  0 <= a < 256 -> 0 <= b < 256 -> 0 <= Z.lxor a b < 256.
Proof.
  intros Ha Hb.
  assert (Hnn : 0 <= Z.lxor a b) by (apply Z.lxor_nonneg; lia).
  split; [exact Hnn|].
  destruct (Z.eq_dec (Z.lxor a b) 0) as [->|Hne]; [lia|].
  change 256 with (2 ^ 8). apply Z.log2_lt_pow2; [lia|].
  pose proof (Z.log2_lxor a b ltac:(lia) ltac:(lia)) as Hl.
  assert (Z.log2 a < 8).
  { destruct (Z.eq_dec a 0) as [->|]; [reflexivity|].
    apply Z.log2_lt_pow2; lia. }
  assert (Z.log2 b < 8).
  { destruct (Z.eq_dec b 0) as [->|]; [reflexivity|].
    apply Z.log2_lt_pow2; lia. }
  lia.
Qed.

(** Reading consecutive positions of a list is taking a slice of it. *)
Lemma map_nth_seq {A} (l : list A) (d : A) (a n : nat) :
  (a + n <= length l)%nat ->
  map (fun i => nth i l d) (seq a n) = take n (drop a l).
Proof.
  intros Hlen. apply list_eq. intros i. rewrite list_lookup_fmap.
  destruct (decide (i < n)%nat) as [Hi|Hi].
  - rewrite lookup_seq_lt by lia. cbn.
    rewrite lookup_take_lt by lia. rewrite lookup_drop, nth_lookup.
    destruct (l !! (a + i)%nat) eqn:E; [reflexivity|].
    apply lookup_ge_None in E. lia.
  - rewrite lookup_seq_ge by lia. rewrite lookup_take_ge by lia. reflexivity.
Qed.

(** ** Report codec *)

Section CodecFacts.
Import Codec.

Lemma xor_fold_range bs : 0 <= xor_fold bs < 256.
Proof.
  induction bs as [|b bs IH]; cbn; [lia|].
  apply lxor_u8_range; [apply Z_of_byte_range|exact IH].
Qed.

(** The loop, started from any 8-bit accumulator, XORs the bytes it visits
    into it; the store into [unsigned char] never truncates. *)
Lemma crc_loop_xor_fold report (ixs : list nat) (crc : Z) :
  0 <= crc < 256 ->
  fold_left (crc_step report) ixs crc
  = Z.lxor crc (xor_fold (map (fun i => nth i report x00) ixs)).
Proof.
  revert crc. induction ixs as [|i ixs IH]; intros crc Hc; cbn.
  - now rewrite Z.lxor_0_r.
  - assert (Hs : crc_step report crc i
                 = Z.lxor crc (Z_of_byte (nth i report x00))).
    { unfold crc_step. apply Z.mod_small.
      apply lxor_u8_range; [exact Hc|apply Z_of_byte_range]. }
    rewrite Hs, IH.
    + now rewrite Z.lxor_assoc.
    + apply lxor_u8_range; [exact Hc|apply Z_of_byte_range].
Qed.

Lemma razer_calculate_crc_xor_fold report :
  (88 <= length report)%nat ->
  razer_calculate_crc report = xor_fold (checksum_window report).
Proof.
  intros Hlen. unfold razer_calculate_crc, checksum_window.
  rewrite crc_loop_xor_fold by lia.
  rewrite map_nth_seq by lia. apply Z.lxor_0_l.
Qed.

(** Replacing one byte of a sequence XORs the old and the new value into
    its fold. *)
Lemma xor_fold_insert bs j old b :
  bs !! j = Some old ->
  xor_fold (<[j := b]> bs)
  = Z.lxor (xor_fold bs) (Z.lxor (Z_of_byte old) (Z_of_byte b)).
Proof.
  revert j. induction bs as [|x bs IH]; intros [|j] Hj; try discriminate.
  - cbn in Hj. injection Hj as ->. cbn. lxor_bits.
  - cbn in Hj. change (<[S j := b]> (x :: bs)) with (x :: <[j := b]> bs).
    unfold xor_fold in *. cbn [fold_right]. rewrite (IH j Hj). lxor_bits.
Qed.

Lemma checksum_window_insert_outside report i b :
  (i < 2 \/ 88 <= i)%nat ->
  checksum_window (<[i := b]> report) = checksum_window report.
Proof.
  intros [Hi|Hi]; unfold checksum_window.
  - now rewrite drop_insert_lt by lia.
  - rewrite drop_insert_ge by lia. now rewrite take_insert_ge by lia.
Qed.

Lemma checksum_window_insert_inside report i b :
  (2 <= i < 88)%nat ->
  checksum_window (<[i := b]> report)
  = <[(i - 2)%nat := b]> (checksum_window report).
Proof.
  intros Hi. unfold checksum_window.
  rewrite drop_insert_ge by lia. now rewrite take_insert_lt by lia.
Qed.

(** C4.  For every 90-byte report, [razer_calculate_crc] is the XOR-fold of
    the bytes at offsets 2 to 87; storing any value at offset 0, 1, 88 or 89
    leaves the result as it was, and storing a different value at any one
    offset from 2 to 87 changes it. *)
Theorem razer_calculate_crc_window (report : razer_report) :
  length report = 90%nat ->
  razer_calculate_crc report = xor_fold (take 86 (drop 2 report))
  /\ (forall (i : nat) (b : byte),
        i = 0%nat \/ i = 1%nat \/ i = 88%nat \/ i = 89%nat ->
        razer_calculate_crc (<[i := b]> report) = razer_calculate_crc report)
  /\ (forall (i : nat) (b : byte),
        (2 <= i <= 87)%nat -> report !! i <> Some b ->
        razer_calculate_crc (<[i := b]> report) <> razer_calculate_crc report).
Proof.
  intros Hlen. split; [|split].
  - apply razer_calculate_crc_xor_fold. lia.
  - intros i b Hi.
    rewrite !razer_calculate_crc_xor_fold by (rewrite ?length_insert; lia).
    rewrite checksum_window_insert_outside by lia. reflexivity.
  - intros i b Hi Hne.
    rewrite !razer_calculate_crc_xor_fold by (rewrite ?length_insert; lia).
    rewrite checksum_window_insert_inside by lia.
    destruct (checksum_window report !! (i - 2)%nat) as [old|] eqn:Hold.
    + rewrite (xor_fold_insert _ _ old b Hold). intros Heq.
      assert (Hz : Z.lxor (Z_of_byte old) (Z_of_byte b) = 0).
      { apply (f_equal (Z.lxor (xor_fold (checksum_window report)))) in Heq.
        rewrite <- Z.lxor_assoc, Z.lxor_nilpotent, Z.lxor_0_l in Heq.
        exact Heq. }
      apply Z.lxor_eq, Z_of_byte_inj in Hz. subst old.
      apply Hne. unfold checksum_window in Hold.
      rewrite lookup_take_lt in Hold by lia.
      rewrite lookup_drop in Hold.
      replace (2 + (i - 2))%nat with i in Hold by lia. exact Hold.
    + apply lookup_ge_None in Hold. unfold checksum_window in Hold.
      rewrite length_take, length_drop in Hold. lia.
Qed.

Lemma razer_calculate_crc_window_witness :
  length sample_report = 90%nat
  /\ razer_calculate_crc sample_report
     = xor_fold (take 86 (drop 2 sample_report))
  /\ razer_calculate_crc (<[89%nat := xff]> sample_report)
     = razer_calculate_crc sample_report
  /\ razer_calculate_crc (<[5%nat := x04]> sample_report)
     <> razer_calculate_crc sample_report.
Proof.
  split; [reflexivity|].
  destruct (razer_calculate_crc_window sample_report eq_refl)
    as (Hfold & Houtside & Hinside).
  split; [exact Hfold|]. split.
  - apply Houtside. right. right. right. reflexivity.
  - apply Hinside; [lia|]. cbn. discriminate.
Defined.

End CodecFacts.

(** ** Key-translation registry *)

Section RegistryFacts.
Import Registry.

Lemma u16_lo_of_bytes lo hi : u16_lo (u16_of_bytes lo hi) = lo.
Proof.
  unfold u16_lo, u16_of_bytes.
  rewrite (Z.mul_comm 256), Z.mod_add by lia.
  rewrite Z.mod_small by apply Z_of_byte_range. apply byte_of_Z_of_byte.
Qed.

Lemma u16_hi_of_bytes lo hi : u16_hi (u16_of_bytes lo hi) = hi.
Proof.
  unfold u16_hi, u16_of_bytes.
  rewrite (Z.mul_comm 256), Z.div_add by lia.
  rewrite Z.div_small by apply Z_of_byte_range. apply byte_of_Z_of_byte.
Qed.

Lemma nth_drop {A} (l : list A) (d : A) (k i : nat) :
  nth i (drop k l) d = nth (k + i) l d.
Proof. now rewrite !nth_lookup, lookup_drop. Qed.

(** *** [razer_get_device] *)

Lemma razer_get_device_Some translations id it d :
  razer_get_device translations id = Some (it, d) ->
  translations !! it = Some d /\ dev_id d = id
  /\ forall j d', (j < it)%nat -> translations !! j = Some d' -> dev_id d' <> id.
Proof.
  revert it. induction translations as [|ptr rest IH]; intros it H; cbn in H.
  - discriminate.
  - destruct (Z.eqb_spec (dev_id ptr) id) as [Heq|Hne].
    + injection H as <- <-. repeat split; [exact Heq|]. intros j d' Hj. lia.
    + destruct (razer_get_device rest id) as [[i d0]|] eqn:E; [|discriminate].
      cbn in H. injection H as <- <-.
      destruct (IH i eq_refl) as (Hl & Hid & Hbefore).
      repeat split; [exact Hl|exact Hid|].
      intros [|j] d' Hj Hd'; cbn in Hd'.
      * now injection Hd' as <-.
      * apply (Hbefore j d'); [lia|exact Hd'].
Qed.

Lemma razer_get_device_None translations id :
  razer_get_device translations id = None
  <-> Forall (fun d => dev_id d <> id) translations.
Proof.
  induction translations as [|ptr rest IH]; cbn.
  - split; [constructor|reflexivity].
  - destruct (Z.eqb_spec (dev_id ptr) id) as [Heq|Hne].
    + split; [discriminate|]. intros H. inversion H; subst. contradiction.
    + destruct (razer_get_device rest id) as [[i d0]|] eqn:E; cbn.
      * split; [discriminate|]. intros H. inversion H; subst.
        destruct IH as [_ IH]. now specialize (IH ltac:(assumption)).
      * split; [|reflexivity]. intros _. constructor; [exact Hne|].
        now apply IH.
Qed.

(** Overwriting the member found, keeping its id, leaves it the one found. *)
Lemma razer_get_device_insert translations id it d d' :
  razer_get_device translations id = Some (it, d) ->
  dev_id d' = id ->
  razer_get_device (<[it := d']> translations) id = Some (it, d').
Proof.
  revert it. induction translations as [|ptr rest IH]; intros it H Hid; cbn in H.
  - discriminate.
  - destruct (Z.eqb_spec (dev_id ptr) id) as [Heq|Hne].
    + injection H as <- <-. cbn. rewrite Hid, Z.eqb_refl. reflexivity.
    + destruct (razer_get_device rest id) as [[i d0]|] eqn:E; [|discriminate].
      cbn in H. injection H as <- <-.
      change (<[S i := d']> (ptr :: rest)) with (ptr :: <[i := d']> rest).
      cbn. destruct (Z.eqb_spec (dev_id ptr) id); [contradiction|].
      now rewrite (IH i eq_refl Hid).
Qed.

Lemma razer_get_device_ids translations id :
  razer_get_device translations id = None <-> id ∉ dev_id <$> translations.
Proof.
  rewrite razer_get_device_None, Forall_forall. split.
  - intros H Hin. apply list_elem_of_fmap in Hin as (d & -> & Hd).
    now apply (H d).
  - intros H d Hd Heq. apply H. apply list_elem_of_fmap. now exists d.
Qed.

(** With distinct ids, unlinking the member found leaves none for the id. *)
Lemma razer_get_device_delete translations id it d :
  NoDup (dev_id <$> translations) ->
  razer_get_device translations id = Some (it, d) ->
  razer_get_device (delete it translations) id = None.
Proof.
  revert it. induction translations as [|ptr rest IH]; intros it Hnd H; cbn in H.
  - discriminate.
  - cbn in Hnd. apply NoDup_cons in Hnd as [Hnotin Hnd].
    destruct (Z.eqb_spec (dev_id ptr) id) as [Heq|Hne].
    + injection H as <- <-. cbn. apply razer_get_device_ids. now rewrite <- Heq.
    + destruct (razer_get_device rest id) as [[i d0]|] eqn:E; [|discriminate].
      cbn in H. injection H as <- <-.
      change (delete (S i) (ptr :: rest)) with (ptr :: delete i rest).
      cbn [razer_get_device].
      destruct (Z.eqb_spec (dev_id ptr) id); [contradiction|].
      now rewrite (IH i Hnd eq_refl).
Qed.

(** *** The loop "bindings set" *)

Lemma set_binding_at buf offset (e : razer_key_translation) :
  set_flags 0 (memcpy_to_translation e (drop (offset * 4) buf))
  = binding_at buf offset.
Proof.
  unfold set_flags, memcpy_to_translation, binding_at. cbn [from to flags].
  rewrite !nth_drop.
  replace (offset * 4 + 0)%nat with (4 * offset)%nat by lia.
  replace (offset * 4 + 1)%nat with (4 * offset + 1)%nat by lia.
  replace (offset * 4 + 2)%nat with (4 * offset + 2)%nat by lia.
  replace (offset * 4 + 3)%nat with (4 * offset + 3)%nat by lia.
  reflexivity.
Qed.

Lemma set_bindings_lookup buf (k a : nat) trs (j : nat) :
  fold_left (set_binding buf 4) (seq a k) trs !! j
  = if decide (a <= j < a + k)%nat
    then (fun _ => binding_at buf j) <$> trs !! j
    else trs !! j.
Proof.
  revert a trs. induction k as [|k IH]; intros a trs; cbn [seq fold_left].
  - destruct (decide _); [lia|reflexivity].
  - rewrite IH. unfold set_binding. rewrite !list_lookup_alter.
    destruct (decide (a = j)) as [->|Hne].
    + destruct (decide (S j <= j < S j + k)%nat); [lia|].
      destruct (decide (j <= j < j + S k)%nat); [|lia].
      destruct (trs !! j); cbn; [|reflexivity]. now rewrite set_binding_at.
    + destruct (decide (S a <= j < S a + k)%nat);
        destruct (decide (a <= j < a + S k)%nat); try lia; reflexivity.
Qed.

Lemma set_bindings_length buf (k a : nat) trs :
  length (fold_left (set_binding buf 4) (seq a k) trs) = length trs.
Proof.
  revert a trs. induction k as [|k IH]; intros a trs; cbn [seq fold_left].
  - reflexivity.
  - rewrite IH. unfold set_binding. apply length_alter.
Qed.

(** Run over an array of [n] entries, the loop leaves exactly the entries
    the buffer describes. *)
Lemma set_bindings_spec buf n trs :
  length trs = n ->
  fold_left (set_binding buf 4) (seq 0 n) trs = bindings_of_buffer buf n.
Proof.
  intros Hlen. apply list_eq. intros j.
  rewrite set_bindings_lookup. unfold bindings_of_buffer.
  rewrite list_lookup_fmap.
  destruct (decide (0 <= j < 0 + n)%nat) as [Hj|Hj].
  - rewrite lookup_seq_lt by lia.
    destruct (trs !! j) eqn:E; [reflexivity|].
    apply lookup_ge_None in E. lia.
  - rewrite lookup_seq_ge by lia. apply lookup_ge_None. lia.
Qed.

Lemma length_bindings_of_buffer buf n : length (bindings_of_buffer buf n) = n.
Proof. unfold bindings_of_buffer. now rewrite length_map, length_seq. Qed.

(** *** [razer_set_translations] *)

(** An odd length other than 1 is rejected and nothing happens. *)
Lemma razer_set_translations_odd translations id buf :
  (length buf mod 2 = 1)%nat -> length buf <> 1%nat ->
  razer_set_translations translations id buf = Some (2, translations, []).
Proof.
  intros Hodd Hne. unfold razer_set_translations, sizeof_u8, sizeof_u16.
  destruct (Nat.eqb_spec (length buf) 1); [contradiction|].
  rewrite Hodd. reflexivity.
Qed.

(** Every even length is accepted: the set for [id] ends up holding the
    [length buf / 4] entries read from the buffer. *)
Lemma razer_set_translations_even translations id buf :
  (length buf mod 2 = 0)%nat ->
  exists ev,
    razer_set_translations translations id buf
    = Some (0, replace_bindings translations id
                 (bindings_of_buffer buf (length buf / 4)), ev).
Proof.
  intros Heven. unfold razer_set_translations, replace_bindings.
  unfold sizeof_u8, sizeof_u16. change (2 * 2)%nat with 4%nat.
  destruct (Nat.eqb_spec (length buf) 1) as [H1|_]; [rewrite H1 in Heven; discriminate|].
  rewrite Heven. cbn [Nat.eqb negb].
  set (n := (length buf / 4)%nat).
  destruct (razer_get_device translations id) as [[it d]|] eqn:E.
  - rewrite E. cbn [mbind option_bind].
    destruct (negb (length (dev_translations d) =? n)%nat) eqn:Hlen.
    + unfold razer_alloc_translations, set_translations.
      cbn [dev_translations dev_id].
      rewrite set_bindings_spec by apply length_replicate.
      eexists. reflexivity.
    + apply negb_false_iff, Nat.eqb_eq in Hlen.
      rewrite set_bindings_spec by exact Hlen.
      eexists. reflexivity.
  - cbn [razer_alloc_translations set_translations dev_translations dev_id
         razer_get_device].
    rewrite Z.eqb_refl. unfold set_translations.
    cbn [mbind option_bind dev_translations dev_id].
    rewrite length_replicate, Nat.eqb_refl. cbn [negb].
    rewrite set_bindings_spec by apply length_replicate.
    eexists. reflexivity.
Qed.

(** A one-byte write unlinks and frees the set found for [id]. *)
Lemma razer_set_translations_delete translations id b it d :
  razer_get_device translations id = Some (it, d) ->
  razer_set_translations translations id [b]
  = Some (1, delete it translations,
          razer_free_translations d
          ++ [kfree (device_struct d);
              printk "razercommon: [Translations] clear translations for device %d count %d should be 0!\n"
                     [id; razer_count_translations (delete it translations) id]]).
Proof.
  intros E. unfold razer_set_translations. cbn [length Nat.eqb sizeof_u8].
  rewrite E. reflexivity.
Qed.

(** A one-byte write for an id without a set falls through to the length
    check and is rejected. *)
Lemma razer_set_translations_delete_absent translations id b :
  razer_get_device translations id = None ->
  razer_set_translations translations id [b] = Some (2, translations, []).
Proof.
  intros E. unfold razer_set_translations. cbn [length Nat.eqb sizeof_u8].
  rewrite E. reflexivity.
Qed.

(** The function never dereferences NULL. *)
Lemma razer_set_translations_total translations id buf :
  is_Some (razer_set_translations translations id buf).
Proof.
  destruct (Nat.Even_or_Odd (length buf)) as [[k Hk]|[k Hk]].
  - destruct (razer_set_translations_even translations id buf) as [ev ->];
      [|eauto]. rewrite Hk. now rewrite Nat.mul_comm, Nat.Div0.mod_mul.
  - destruct (decide (length buf = 1%nat)) as [H1|H1].
    + destruct buf as [|b [|? ?]]; try discriminate.
      destruct (razer_get_device translations id) as [[it d]|] eqn:E.
      * rewrite (razer_set_translations_delete _ _ _ _ _ E). eauto.
      * rewrite (razer_set_translations_delete_absent _ _ _ E). eauto.
    + rewrite razer_set_translations_odd; [eauto| |exact H1].
      rewrite Hk. rewrite Nat.add_comm, Nat.mul_comm, Nat.Div0.mod_add.
      reflexivity.
Qed.

Lemma razer_set_translations_cases translations id buf c translations' ev :
  razer_set_translations translations id buf = Some (c, translations', ev) ->
  (c = 2 /\ translations' = translations /\ ev = [])
  \/ (c = 1 /\ length buf = 1%nat
      /\ exists it d, razer_get_device translations id = Some (it, d)
                      /\ translations' = delete it translations)
  \/ (c = 0 /\ (length buf mod 2 = 0)%nat
      /\ translations' = replace_bindings translations id
                           (bindings_of_buffer buf (length buf / 4))).
Proof.
  intros H.
  destruct (Nat.Even_or_Odd (length buf)) as [[k Hk]|[k Hk]].
  - assert (Heven : (length buf mod 2 = 0)%nat).
    { rewrite Hk. now rewrite Nat.mul_comm, Nat.Div0.mod_mul. }
    destruct (razer_set_translations_even translations id buf Heven) as [ev' E].
    rewrite E in H. injection H as <- <- <-. right. right. auto.
  - destruct (decide (length buf = 1%nat)) as [H1|H1].
    + destruct buf as [|b [|? ?]]; try discriminate.
      destruct (razer_get_device translations id) as [[it d]|] eqn:E.
      * rewrite (razer_set_translations_delete _ _ _ _ _ E) in H.
        injection H as <- <- <-. right. left. eauto 6.
      * rewrite (razer_set_translations_delete_absent _ _ _ E) in H.
        injection H as <- <- <-. left. auto.
    + rewrite razer_set_translations_odd in H; [| |exact H1].
      * injection H as <- <- <-. left. auto.
      * rewrite Hk. rewrite Nat.add_comm, Nat.mul_comm, Nat.Div0.mod_add.
        reflexivity.
Qed.

(** *** What a replaced set looks like *)

Lemma razer_get_device_replace translations id trs :
  exists it,
    razer_get_device (replace_bindings translations id trs) id
    = Some (it, {| dev_id := id; dev_translations := trs |}).
Proof.
  unfold replace_bindings.
  destruct (razer_get_device translations id) as [[it d]|] eqn:E.
  - exists it. destruct (razer_get_device_Some _ _ _ _ E) as (_ & Hid & _).
    rewrite (razer_get_device_insert _ _ _ _ (set_translations trs d) E Hid).
    unfold set_translations. now rewrite Hid.
  - exists 0%nat. cbn. now rewrite Z.eqb_refl.
Qed.

Lemma replace_bindings_distinct_ids translations id trs :
  distinct_ids translations ->
  distinct_ids (replace_bindings translations id trs).
Proof.
  unfold distinct_ids, replace_bindings. intros Hnd.
  destruct (razer_get_device translations id) as [[it d]|] eqn:E.
  - destruct (razer_get_device_Some _ _ _ _ E) as (Hl & _ & _).
    rewrite list_fmap_insert. cbn [set_translations dev_id].
    rewrite list_insert_id; [exact Hnd|].
    now rewrite list_lookup_fmap, Hl.
  - cbn. apply NoDup_cons. split; [|exact Hnd].
    now apply razer_get_device_ids.
Qed.

Lemma replace_bindings_no_empty_set translations id trs :
  trs <> [] -> no_empty_set translations ->
  no_empty_set (replace_bindings translations id trs).
Proof.
  unfold no_empty_set, replace_bindings. intros Hne Hall.
  destruct (razer_get_device translations id) as [[it d]|].
  - apply Forall_insert; [exact Hall|exact Hne].
  - constructor; [exact Hne|exact Hall].
Qed.

(** *** Invariants along a sequence of writes *)

Lemma razer_set_translations_distinct_ids translations id buf c translations' ev :
  distinct_ids translations ->
  razer_set_translations translations id buf = Some (c, translations', ev) ->
  distinct_ids translations'.
Proof.
  intros Hnd H.
  apply razer_set_translations_cases in H
    as [(_ & -> & _)|[(_ & _ & it & d & _ & ->)|(_ & _ & ->)]].
  - exact Hnd.
  - unfold distinct_ids in *. rewrite list_fmap_delete.
    eapply sublist_NoDup; [exact Hnd|apply sublist_delete].
  - now apply replace_bindings_distinct_ids.
Qed.

Lemma write_all_distinct_ids writes translations translations' :
  distinct_ids translations ->
  write_all translations writes = Some translations' ->
  distinct_ids translations'.
Proof.
  revert translations. induction writes as [|[id buf] rest IH];
    intros translations Hnd H; cbn in H.
  - now injection H as <-.
  - destruct (razer_set_translations translations id buf)
      as [[[c r1] ev]|] eqn:E; [|discriminate].
    cbn in H. eapply IH; [|exact H].
    eapply razer_set_translations_distinct_ids; eauto.
Qed.


Lemma razer_set_translations_no_empty_set translations id buf c translations' ev :
  odd_or_whole_bindings (id, buf) ->
  no_empty_set translations ->
  razer_set_translations translations id buf = Some (c, translations', ev) ->
  no_empty_set translations'.
Proof.
  intros Hw Hall H.
  apply razer_set_translations_cases in H
    as [(_ & -> & _)|[(_ & _ & it & d & _ & ->)|(_ & Heven & ->)]].
  - exact Hall.
  - now apply Forall_delete.
  - apply replace_bindings_no_empty_set; [|exact Hall].
    destruct Hw as [Hodd|[H4 Hpos]]; cbn [snd] in *; [lia|].
    intros Hnil. apply (f_equal length) in Hnil.
    rewrite length_bindings_of_buffer in Hnil. cbn [length] in Hnil.
    pose proof (Nat.div_mod_eq (length buf) 4). lia.
Qed.

(** *** [razer_get_translations] *)

Lemma dump_bindings_spec trs (k a : nat) (buf0 : buffer) (size0 : nat) :
  let r := fold_left (dump_binding trs 4) (seq a k) (buf0, size0) in
  snd r = (size0 + 4 * k)%nat
  /\ (forall offset j, (a <= offset < a + k)%nat -> (j < 4)%nat ->
        fst r (4 * offset + j)%nat
        = nth j (translation_bytes (nth offset trs zero_translation)) x00)
  /\ (forall i, ~ (4 * a <= i < 4 * (a + k))%nat -> fst r i = buf0 i).
Proof.
  revert a buf0 size0. induction k as [|k IH]; intros a buf0 size0;
    cbn [seq fold_left].
  - cbn. repeat split; [lia|intros; lia].
  - specialize (IH (S a)
      (store_bytes buf0 (a * 4)
         (take 4 (translation_bytes (nth a trs zero_translation))))
      (size0 + 4)%nat).
    cbn [dump_binding]. cbn zeta in IH.
    destruct IH as (Hsize & Hin & Hout).
    split; [|split].
    + cbn zeta. rewrite Hsize. lia.
    + cbn zeta. intros offset j Ho Hj.
      destruct (decide (offset = a)) as [->|Hne].
      * rewrite Hout by lia. unfold store_bytes.
        change (length (take 4 (translation_bytes _))) with 4%nat.
        destruct (decide _) as [_|Hn]; [|lia].
        replace (4 * a + j - a * 4)%nat with j by lia. reflexivity.
      * apply Hin; lia.
    + cbn zeta. intros i Hi. rewrite Hout by lia. unfold store_bytes.
      change (length (take 4 (translation_bytes _))) with 4%nat.
      destruct (decide _) as [Hy|_]; [lia|reflexivity].
Qed.

(** Dumping the set found for [id]: four bytes per entry, in order, and
    nothing written past them. *)
Lemma razer_get_translations_found translations id it device (buf : buffer) :
  razer_get_device translations id = Some (it, device) ->
  let r := razer_get_translations translations id buf in
  snd r = (4 * length (dev_translations device))%nat
  /\ (forall offset j,
        (offset < length (dev_translations device))%nat -> (j < 4)%nat ->
        fst r (4 * offset + j)%nat
        = nth j (translation_bytes
                   (nth offset (dev_translations device) zero_translation)) x00)
  /\ (forall i, (4 * length (dev_translations device) <= i)%nat ->
        fst r i = buf i).
Proof.
  intros E. unfold razer_get_translations, sizeof_u16. rewrite E.
  change (2 * 2)%nat with 4%nat.
  pose proof (dump_bindings_spec (dev_translations device)
                (length (dev_translations device)) 0 buf 0) as H.
  cbn zeta in *. destruct H as (Hsize & Hin & Hout).
  split; [exact Hsize|]. split.
  - intros offset j Ho Hj. apply Hin; lia.
  - intros i Hi. apply Hout. lia.
Qed.

Lemma razer_get_translations_absent translations id (buf : buffer) :
  razer_get_device translations id = None ->
  razer_get_translations translations id buf = (store_bytes buf 0 [x00], 1%nat).
Proof.
  intros E. unfold razer_get_translations. now rewrite E.
Qed.

Lemma translation_bytes_binding_at buf offset j :
  (j < 4)%nat ->
  nth j (translation_bytes (binding_at buf offset)) x00
  = nth (4 * offset + j) buf x00.
Proof.
  intros Hj. unfold translation_bytes, binding_at. cbn [from to].
  rewrite !u16_lo_of_bytes, !u16_hi_of_bytes.
  destruct j as [|[|[|[|j]]]]; try lia; cbn [nth]; try reflexivity.
  now rewrite Nat.add_0_r.
Qed.

Lemma nth_bindings_of_buffer buf n offset :
  (offset < n)%nat ->
  nth offset (bindings_of_buffer buf n) zero_translation = binding_at buf offset.
Proof.
  intros Ho. unfold bindings_of_buffer.
  rewrite nth_lookup, list_lookup_fmap, lookup_seq_lt by lia. reflexivity.
Qed.

(** *** [razer_get_translation] *)

Lemma scan_translations_Some trs key i0 i e :
  scan_translations trs key i0 = Some (i, e)
  <-> exists k, i = (i0 + k)%nat /\ trs !! k = Some e /\ from e = key
               /\ forall j e', (j < k)%nat -> trs !! j = Some e' -> from e' <> key.
Proof.
  revert i0. induction trs as [|e0 rest IH]; intros i0; cbn [scan_translations].
  - split; [discriminate|]. intros (k & _ & Hk & _). discriminate.
  - destruct (Z.eqb_spec (from e0) key) as [Heq|Hne].
    + split.
      * intros H. injection H as <- <-. exists 0%nat.
        repeat split; [lia|exact Heq|]. intros j e' Hj. lia.
      * intros ([|k] & -> & Hk & Hf & Hbefore).
        -- cbn in Hk. injection Hk as <-. f_equal. f_equal. lia.
        -- exfalso. apply (Hbefore 0%nat e0); [lia|reflexivity|exact Heq].
    + rewrite IH. split.
      * intros (k & -> & Hk & Hf & Hbefore). exists (S k).
        repeat split; [lia|exact Hk|exact Hf|].
        intros [|j] e' Hj He'; cbn in He'.
        -- now injection He' as <-.
        -- apply (Hbefore j e'); [lia|exact He'].
      * intros ([|k] & -> & Hk & Hf & Hbefore).
        -- cbn in Hk. injection Hk as <-. contradiction.
        -- exists k. repeat split; [lia|exact Hk|exact Hf|].
           intros j e' Hj He'. apply (Hbefore (S j) e'); [lia|exact He'].
Qed.

Lemma scan_translations_None trs key i0 :
  scan_translations trs key i0 = None
  <-> Forall (fun e => from e <> key) trs.
Proof.
  revert i0. induction trs as [|e0 rest IH]; intros i0; cbn [scan_translations].
  - split; [constructor|reflexivity].
  - destruct (Z.eqb_spec (from e0) key) as [Heq|Hne].
    + split; [discriminate|]. intros H. inversion H; subst. contradiction.
    + rewrite IH. split.
      * intros H. constructor; assumption.
      * intros H. now inversion H.
Qed.

(** *** The claims about the registry *)

(** C1, as the code behaves on lengths that are even but not a multiple of 4.
    A 2-byte write to the empty registry is not rejected: it returns 0 and
    links a set with no entries for the id.  A 6-byte write returns 0 as well
    and binds one entry read from the first four bytes; the last two bytes are
    dropped. *)
Theorem razer_set_translations_half_binding :
  fst <$> razer_set_translations razer_init_translations 7 [x02; x00]
  = Some (0, [{| dev_id := 7; dev_translations := [] |}])
  /\ fst <$> razer_set_translations razer_init_translations 7
               [x02; x00; x1e; x00; x03; x00]
     = Some (0, [{| dev_id := 7;
                    dev_translations :=
                      [{| from := 2; to := 30; flags := 0 |}] |}]).
Proof. split; reflexivity. Qed.

(** C2, at a concrete input: a one-byte write for an id that has no set
    returns 2, not 1, and leaves the (empty) registry as it was. *)
Lemma razer_set_translations_delete_unbound :
  razer_set_translations razer_init_translations 7 [x00] = Some (2, [], []).
Proof. reflexivity. Qed.

(** C2, amended.  A write of exactly one byte, whatever its value: when a
    set is bound to the id, each of its entries, its array and the set itself
    are freed, the set is unlinked and 1 is returned; when no set is bound,
    nothing changes and 2 is returned. *)
Theorem razer_set_translations_one_byte translations id (b : byte) :
  match razer_get_device translations id with
  | Some (it, d) =>
      razer_set_translations translations id [b]
      = Some (1, delete it translations,
              map (fun e => kfree (key_translation e)) (dev_translations d)
              ++ [kfree (translations_array (length (dev_translations d)))]
              ++ [kfree (device_struct d);
                  printk "razercommon: [Translations] clear translations for device %d count %d should be 0!\n"
                         [id; razer_count_translations (delete it translations) id]])
      /\ translations !! it = Some d /\ dev_id d = id
  | None =>
      razer_set_translations translations id [b] = Some (2, translations, [])
  end.
Proof.
  destruct (razer_get_device translations id) as [[it d]|] eqn:E.
  - rewrite (razer_set_translations_delete _ _ _ _ _ E).
    unfold razer_free_translations. rewrite <- app_assoc.
    destruct (razer_get_device_Some _ _ _ _ E) as (Hl & Hid & _). auto.
  - now apply razer_set_translations_delete_absent.
Qed.

(** C3, at a concrete input: the write of an empty buffer to the empty
    registry leaves a set with no entries linked for the id. *)
Lemma write_all_retains_empty_set :
  write_all razer_init_translations [(7, [])]
  = Some [{| dev_id := 7; dev_translations := [] |}].
Proof. reflexivity. Qed.

(** C3, amended.  Starting from the initialised, empty registry, after any
    sequence of writes whose buffers each have an odd length or a length
    that is a positive multiple of 4, every set in the registry has at least
    one entry.  A write of an empty buffer, in any registry, returns 0 and
    leaves a set with no entries bound to the id. *)
Theorem write_all_no_empty_set :
  (forall writes : list (Z * list byte),
      Forall odd_or_whole_bindings writes ->
      exists translations,
        write_all razer_init_translations writes = Some translations
        /\ no_empty_set translations)
  /\ (forall translations id,
        exists translations' ev it,
          razer_set_translations translations id [] = Some (0, translations', ev)
          /\ razer_get_device translations' id
             = Some (it, {| dev_id := id; dev_translations := [] |})).
Proof.
  split.
  - intros writes Hw.
    assert (Hgen : forall translations, no_empty_set translations ->
              exists translations',
                write_all translations writes = Some translations'
                /\ no_empty_set translations').
    { induction Hw as [|[id buf] rest Hhd Htl IH]; intros translations Hinv; cbn.
      - eauto.
      - destruct (razer_set_translations_total translations id buf)
          as [[[c r1] ev] E].
        rewrite E. cbn. apply IH.
        eapply razer_set_translations_no_empty_set; eauto. }
    apply Hgen. constructor.
  - intros translations id.
    destruct (razer_set_translations_even translations id [] eq_refl)
      as [ev E].
    destruct (razer_get_device_replace translations id []) as [it Hit].
    exists (replace_bindings translations id []), ev, it.
    split; [exact E|exact Hit].
Qed.

Lemma write_all_no_empty_set_witness :
  Forall odd_or_whole_bindings naga_writes
  /\ exists translations,
       write_all razer_init_translations naga_writes = Some translations
       /\ no_empty_set translations.
Proof.
  assert (H : Forall odd_or_whole_bindings naga_writes).
  { repeat constructor;
      solve [left; reflexivity | right; split; [reflexivity|cbn; lia]]. }
  split; [exact H|]. exact (proj1 write_all_no_empty_set naga_writes H).
Defined.

(** C5.  For every n >= 1, id and registry, writing a buffer of 4n bytes
    returns 0 and leaves, as the set found for the id, exactly the n entries
    read positionally from the buffer with flags 0; reading the id back
    returns 4n, puts the bytes of the buffer at the start of the output and
    touches nothing after them. *)
Theorem set_then_get_round_trip translations id (buf : list byte) (n : nat)
    (out : buffer) :
  (1 <= n)%nat -> length buf = (4 * n)%nat ->
  exists translations' ev it,
    razer_set_translations translations id buf = Some (0, translations', ev)
    /\ razer_get_device translations' id
       = Some (it, {| dev_id := id;
                      dev_translations := bindings_of_buffer buf n |})
    /\ length (bindings_of_buffer buf n) = n
    /\ snd (razer_get_translations translations' id out) = (4 * n)%nat
    /\ fst (razer_get_translations translations' id out) <$> seq 0 (4 * n) = buf
    /\ forall i, (4 * n <= i)%nat ->
         fst (razer_get_translations translations' id out) i = out i.
Proof.
  intros Hn Hlen.
  assert (Heven : (length buf mod 2 = 0)%nat).
  { rewrite Hlen. replace (4 * n)%nat with (n * 2 * 2)%nat by lia.
    apply Nat.Div0.mod_mul. }
  destruct (razer_set_translations_even translations id buf Heven) as [ev E].
  assert (Hdiv : (length buf / 4)%nat = n).
  { rewrite Hlen, Nat.mul_comm. apply Nat.div_mul. lia. }
  rewrite Hdiv in E.
  destruct (razer_get_device_replace translations id (bindings_of_buffer buf n))
    as [it Hfound].
  exists (replace_bindings translations id (bindings_of_buffer buf n)), ev, it.
  pose proof (razer_get_translations_found _ _ _ _ out Hfound) as Hget.
  cbn zeta in Hget. cbn [dev_translations] in Hget.
  rewrite length_bindings_of_buffer in Hget.
  destruct Hget as (Hsize & Hin & Hout).
  repeat split; try assumption.
  - apply length_bindings_of_buffer.
  - apply list_eq. intros i. rewrite list_lookup_fmap.
    destruct (decide (i < 4 * n)%nat) as [Hi|Hi].
    + rewrite lookup_seq_lt by lia. cbn.
      pose proof (Nat.div_mod_eq i 4) as Hdm.
      pose proof (Nat.mod_upper_bound i 4 ltac:(lia)) as Hm.
      rewrite Hdm at 1.
      rewrite Hin by lia.
      rewrite nth_bindings_of_buffer by lia.
      rewrite translation_bytes_binding_at by lia.
      rewrite <- Hdm. rewrite nth_lookup.
      destruct (buf !! i) eqn:Hb; [reflexivity|].
      apply lookup_ge_None in Hb. lia.
    + rewrite lookup_seq_ge by lia. symmetry. apply lookup_ge_None. lia.
Qed.

Lemma set_then_get_round_trip_witness :
  (1 <= 2)%nat /\ length naga_buffer = (4 * 2)%nat
  /\ exists translations' ev it,
       razer_set_translations [naga_device] 7 naga_buffer
       = Some (0, translations', ev)
       /\ razer_get_device translations' 7
          = Some (it, {| dev_id := 7;
                         dev_translations := bindings_of_buffer naga_buffer 2 |})
       /\ length (bindings_of_buffer naga_buffer 2) = 2%nat
       /\ snd (razer_get_translations translations' 7 (fun _ => xff)) = (4 * 2)%nat
       /\ fst (razer_get_translations translations' 7 (fun _ => xff))
            <$> seq 0 (4 * 2) = naga_buffer
       /\ forall i, (4 * 2 <= i)%nat ->
            fst (razer_get_translations translations' 7 (fun _ => xff)) i = xff.
Proof.
  split; [lia|]. split; [reflexivity|].
  apply (set_then_get_round_trip [naga_device] 7 naga_buffer 2 (fun _ => xff));
    [lia|reflexivity].
Defined.

(** C6.  When no set is bound to the id, [razer_get_translations] stores
    one byte of value 0 at the start of the output, leaves the rest alone and
    returns 1.  This is the case right after a one-byte write for the id, in
    any registry reached from the empty one by a sequence of writes. *)
Theorem razer_get_translations_no_set :
  (forall translations id (out : buffer),
      razer_get_device translations id = None ->
      razer_get_translations translations id out
      = (store_bytes out 0 [x00], 1%nat)
      /\ fst (razer_get_translations translations id out) 0%nat = x00
      /\ forall i, i <> 0%nat ->
           fst (razer_get_translations translations id out) i = out i)
  /\ (forall writes translations id (b : byte) (out : buffer),
        write_all razer_init_translations writes = Some translations ->
        exists c translations' ev,
          razer_set_translations translations id [b]
          = Some (c, translations', ev)
          /\ razer_get_device translations' id = None
          /\ snd (razer_get_translations translations' id out) = 1%nat
          /\ fst (razer_get_translations translations' id out) 0%nat = x00).
Proof.
  assert (Habsent : forall translations id (out : buffer),
      razer_get_device translations id = None ->
      razer_get_translations translations id out
      = (store_bytes out 0 [x00], 1%nat)
      /\ fst (razer_get_translations translations id out) 0%nat = x00
      /\ forall i, i <> 0%nat ->
           fst (razer_get_translations translations id out) i = out i).
  { intros translations id out E.
    rewrite (razer_get_translations_absent _ _ out E).
    split; [reflexivity|]. split; [reflexivity|].
    intros i Hi. cbn [fst]. unfold store_bytes. cbn [length].
    destruct (decide _) as [Hy|_]; [lia|reflexivity]. }
  split; [exact Habsent|].
  intros writes translations id b out Hreach.
  assert (Hnd : distinct_ids translations).
  { eapply write_all_distinct_ids; [|exact Hreach]. constructor. }
  destruct (razer_get_device translations id) as [[it d]|] eqn:E.
  - exists 1, (delete it translations). eexists.
    split; [apply (razer_set_translations_delete _ _ _ _ _ E)|].
    pose proof (razer_get_device_delete _ _ _ _ Hnd E) as Hgone.
    destruct (Habsent _ _ out Hgone) as (Heq & H0 & _).
    split; [exact Hgone|]. split; [now rewrite Heq|exact H0].
  - exists 2, translations, [].
    split; [apply (razer_set_translations_delete_absent _ _ _ E)|].
    destruct (Habsent _ _ out E) as (Heq & H0 & _).
    split; [exact E|]. split; [now rewrite Heq|exact H0].
Qed.

Lemma razer_get_translations_no_set_witness :
  (razer_get_device [naga_device] 8 = None
   /\ razer_get_translations [naga_device] 8 (fun _ => xff)
      = (store_bytes (fun _ => xff) 0 [x00], 1%nat))
  /\ (write_all razer_init_translations [(7, naga_buffer)]
      = Some [{| dev_id := 7;
                 dev_translations := bindings_of_buffer naga_buffer 2 |}]
      /\ exists c translations' ev,
           razer_set_translations
             [{| dev_id := 7;
                 dev_translations := bindings_of_buffer naga_buffer 2 |}]
             7 [x00]
           = Some (c, translations', ev)
           /\ razer_get_device translations' 7 = None
           /\ snd (razer_get_translations translations' 7 (fun _ => xff)) = 1%nat
           /\ fst (razer_get_translations translations' 7 (fun _ => xff)) 0%nat
              = x00).
Proof.
  split.
  - split; [reflexivity|].
    exact (proj1 (proj1 razer_get_translations_no_set
                    [naga_device] 8 (fun _ => xff) eq_refl)).
  - split; [reflexivity|].
    exact (proj2 razer_get_translations_no_set
             [(7, naga_buffer)] _ 7 x00 (fun _ => xff) eq_refl).
Defined.

(** C7.  [razer_get_translation] scans the entries of the set found for the
    id in stored order and returns the first one whose [from] equals the key,
    also when later entries have the same [from]; it returns NULL when no set
    is found for the id or no entry matches. *)
Theorem razer_get_translation_first_match translations id key :
  (razer_get_device translations id = None ->
   razer_get_translation translations id key = None)
  /\ (forall it device,
        razer_get_device translations id = Some (it, device) ->
        (forall i e,
            razer_get_translation translations id key = Some (i, e)
            <-> dev_translations device !! i = Some e /\ from e = key
                /\ forall j e', (j < i)%nat ->
                     dev_translations device !! j = Some e' -> from e' <> key)
        /\ (razer_get_translation translations id key = None
            <-> Forall (fun e => from e <> key) (dev_translations device))).
Proof.
  unfold razer_get_translation. split.
  - now intros ->.
  - intros it device ->. split.
    + intros i e. rewrite scan_translations_Some. split.
      * intros (k & -> & H). exact H.
      * intros H. exists i. split; [reflexivity|exact H].
    + apply scan_translations_None.
Qed.

Lemma razer_get_translation_first_match_witness :
  razer_get_device [naga_device] 7 = Some (0%nat, naga_device)
  /\ razer_get_translation [naga_device] 7 2
     = Some (0%nat, {| from := 2; to := 30; flags := 0 |})
  /\ razer_get_device [naga_device] 8 = None
  /\ razer_get_translation [naga_device] 8 2 = None.
Proof.
  split; [reflexivity|]. split.
  - apply (proj2 (razer_get_translation_first_match [naga_device] 7 2)
             0%nat naga_device eq_refl).
    split; [reflexivity|]. split; [reflexivity|]. intros j e' Hj. lia.
  - split; [reflexivity|].
    exact (proj1 (razer_get_translation_first_match [naga_device] 8 2) eq_refl).
Defined.

End RegistryFacts.

(** ** USB transport *)

Section TransportFacts.
Import Codec Transport.

Context {world : Type}.
Variable handle : forall X, kcall X -> world -> X * world.

Lemma run_bind {A B} (m : kprog A) (f : A -> kprog B) (w : world) :
  run handle (bind m f) w
  = let '(a, w1, t1) := run handle m w in
    let '(b, w2, t2) := run handle (f a) w1 in
    (b, w2, t1 ++ t2).
Proof.
  revert w. induction m as [a|X c k IH]; intros w; cbn [bind run].
  - destruct (run handle (f a) w) as [[b w2] t2]. reflexivity.
  - destruct (handle X c w) as [x w1]. rewrite IH.
    destruct (run handle (k x) w1) as [[a w2] t1].
    destruct (run handle (f a) w2) as [[b w3] t2]. reflexivity.
Qed.

Lemma run_call {X} (c : kcall X) (w : world) :
  run handle (call c) w
  = let '(x, w1) := handle X c w in (x, w1, [Event c x]).
Proof.
  unfold call. cbn [run]. destruct (handle X c w) as [x w1]. reflexivity.
Qed.

Lemma uint_of_int_eq_90 len :
  int_range len -> (uint_of_int len =? 90) = (len =? 90).
Proof.
  unfold int_range, uint_of_int. intros Hr.
  destruct (Z.eqb_spec len 90) as [->|Hne]; [reflexivity|].
  apply Z.eqb_neq. intros H.
  destruct (Z.ltb_spec len 0).
  - assert (len mod 2 ^ 32 = len + 2 ^ 32).
    { symmetry. apply (Z.mod_unique_pos _ _ (-1)); lia. }
    lia.
  - rewrite Z.mod_small in H by lia. contradiction.
Qed.

(** *** [razer_send_control_msg] *)

Lemma run_send_control_msg_nomem usb_dev data report_index wait_min wait_max
    (w w1 : world) :
  handle _ (kmemdup data 90) w = (None, w1) ->
  run handle (razer_send_control_msg usb_dev data report_index wait_min wait_max) w
  = (- ENOMEM, w1, [Event (kmemdup data 90) None]).
Proof.
  intros E. unfold razer_send_control_msg, RAZER_USB_REPORT_LEN.
  unfold call. cbn [bind run]. rewrite E. reflexivity.
Qed.

Lemma run_send_control_msg_sent usb_dev data report_index wait_min wait_max
    (w w1 w2 : world) (p : ptr) (len : Z) (rx : list byte) :
  handle _ (kmemdup data 90) w = (Some p, w1) ->
  handle _ (usb_control_msg (set_report_msg usb_dev report_index p data)) w1
  = ((len, rx), w2) ->
  exists w' tail,
    run handle (razer_send_control_msg usb_dev data report_index wait_min wait_max) w
    = (send_status len, w',
       Event (kmemdup data 90) (Some p)
       :: Event (usb_control_msg (set_report_msg usb_dev report_index p data))
                (len, rx)
       :: Event (usleep_range wait_min wait_max) tt
       :: Event (kfree p) tt :: tail)
    /\ usb_results tail = [] /\ allocated tail = [] /\ freed tail = [].
Proof.
  intros E1 E2. unfold razer_send_control_msg, RAZER_USB_REPORT_LEN.
  unfold call. cbn [bind run]. rewrite E1. cbn [bind run].
  change (Z.to_nat 90) with 90%nat.
  change (Z.lor (Z.lor USB_TYPE_CLASS USB_RECIP_INTERFACE) USB_DIR_OUT)
    with 0x21.
  change HID_REQ_SET_REPORT with 0x09.
  fold (set_report_msg usb_dev report_index p data). rewrite E2.
  cbn [bind run].
  destruct (handle unit (usleep_range wait_min wait_max) w2) as [[] w3].
  cbn [bind run].
  destruct (handle unit (kfree p) w3) as [[] w4].
  unfold send_status, RAZER_USB_REPORT_LEN.
  destruct (negb (uint_of_int len =? 90)); cbn [bind run].
  - destruct (handle unit _ w4) as [[] w5].
    eexists _, _. split; [reflexivity|]. repeat split.
  - eexists _, _. split; [reflexivity|]. repeat split.
Qed.

Lemma send_status_cases len :
  int_range len ->
  (send_status len = 0 <-> len = 90)
  /\ (len < 0 -> send_status len = len)
  /\ (0 <= len < 90 -> send_status len = - EIO).
Proof.
  intros Hr. unfold send_status, RAZER_USB_REPORT_LEN.
  rewrite (uint_of_int_eq_90 len Hr). unfold EIO.
  destruct (Z.ltb_spec len 0); destruct (Z.eqb_spec len 90); cbn [negb];
    repeat split; intros; try lia.
Qed.

(** C9.  [razer_send_control_msg] returns 0 exactly when its control
    transfer reports 90 bytes; a negative transfer status is returned as it
    is, and a transfer of fewer than 90 bytes gives -EIO.  Whatever happens,
    the blocks released are the blocks allocated: the transfer buffer, when
    there is one, is freed. *)
Theorem razer_send_control_msg_result usb_dev data report_index
    wait_min wait_max (w : world) :
  let r := run handle (razer_send_control_msg usb_dev data report_index
                         wait_min wait_max) w in
  freed (snd r) = allocated (snd r)
  /\ (Forall int_range (usb_results (snd r)) ->
      (fst (fst r) = 0 <-> usb_results (snd r) = [90])
      /\ (forall len, usb_results (snd r) = [len] -> len < 0 ->
            fst (fst r) = len)
      /\ (forall len, usb_results (snd r) = [len] -> 0 <= len < 90 ->
            fst (fst r) = - EIO)).
Proof.
  cbn zeta.
  destruct (handle _ (kmemdup data 90) w) as [[p|] w1] eqn:E1.
  - destruct (handle _ (usb_control_msg
                          (set_report_msg usb_dev report_index p data)) w1)
      as [[len rx] w2] eqn:E2.
    destruct (run_send_control_msg_sent usb_dev data report_index
                wait_min wait_max w w1 w2 p len rx E1 E2)
      as (w' & tail & -> & Hu & Ha & Hf).
    cbn [fst snd]. unfold freed, allocated, usb_results in *.
    cbn [omap list_omap usb_result allocated_block freed_block fst].
    rewrite Hu, Ha, Hf. split; [reflexivity|].
    intros Hr. apply Forall_cons in Hr as [Hr _].
    destruct (send_status_cases len Hr) as (H0 & Hneg & Hshort).
    split; [|split].
    + rewrite H0. split; [now intros ->|]. intros H. now injection H.
    + intros len' H. injection H as <-. exact Hneg.
    + intros len' H. injection H as <-. exact Hshort.
  - rewrite (run_send_control_msg_nomem usb_dev data report_index
               wait_min wait_max w w1 E1).
    cbn. split; [reflexivity|]. intros _.
    repeat split; intros; discriminate.
Qed.

(** *** [razer_get_usb_response] *)

Lemma run_get_usb_response_nomem usb_dev report_index request_report
    response_index response_report wait_min wait_max (w w1 : world) :
  handle _ (kzalloc 90) w = (None, w1) ->
  run handle (razer_get_usb_response usb_dev report_index request_report
                response_index response_report wait_min wait_max) w
  = ((- ENOMEM, response_report), w1, [Event (kzalloc 90) None]).
Proof.
  intros E. unfold razer_get_usb_response, sizeof_razer_report.
  unfold call. cbn [bind run]. rewrite E. reflexivity.
Qed.

Lemma run_get_usb_response usb_dev report_index request_report
    response_index response_report wait_min wait_max
    (w w1 w2 w3 : world) (p : ptr) (retval : Z) (tr_send : list event)
    (len : Z) (received : list byte) :
  handle _ (kzalloc 90) w = (Some p, w1) ->
  run handle (razer_send_control_msg usb_dev request_report report_index
                wait_min wait_max) w1 = (retval, w2, tr_send) ->
  handle _ (usb_control_msg (get_report_msg usb_dev response_index p)) w2
  = ((len, received), w3) ->
  exists w' tail,
    run handle (razer_get_usb_response usb_dev report_index request_report
                  response_index response_report wait_min wait_max) w
    = ((if len =? 90 then 0 else 1,
        memcpy response_report
               (receive_into (replicate 90 x00) received) 90),
       w',
       Event (kzalloc 90) (Some p)
       :: tr_send
       ++ Event (usb_control_msg (get_report_msg usb_dev response_index p))
                (len, received)
       :: Event (kfree p) tt :: tail)
    /\ usb_results tail = [].
Proof.
  intros E1 E2 E3.
  unfold razer_get_usb_response, sizeof_razer_report, RAZER_USB_REPORT_LEN.
  unfold call at 1. cbn [bind run]. rewrite E1. cbn [bind run].
  rewrite run_bind, E2. unfold call. cbn [bind run].
  change (Z.lor (Z.lor USB_TYPE_CLASS USB_RECIP_INTERFACE) USB_DIR_IN)
    with 0xA1.
  change HID_REQ_GET_REPORT with 0x01.
  fold (get_report_msg usb_dev response_index p). rewrite E3.
  cbn [bind run].
  destruct (handle unit (kfree p) w3) as [[] w4].
  destruct (Z.eqb_spec len 90) as [->|Hne]; cbn [negb bind run].
  - eexists _, _. split; [reflexivity|reflexivity].
  - destruct (handle unit _ w4) as [[] w5].
    eexists _, _. split; [reflexivity|reflexivity].
Qed.

Lemma receive_into_zeros received :
  receive_into (replicate 90 x00) received
  = take 90 (received ++ replicate (90 - length received) x00).
Proof.
  unfold receive_into. now rewrite length_replicate, drop_replicate.
Qed.

Lemma length_receive_into contents received :
  length (receive_into contents received) = length contents.
Proof.
  unfold receive_into. rewrite length_take, length_app, length_drop. lia.
Qed.

(** C8.  Once its buffer is allocated, [razer_get_usb_response] issues the
    GET_REPORT transfer after the send, whatever the send returned, and its
    own result depends on that transfer alone: 1 exactly when the transfer
    reports something other than 90 bytes, 0 otherwise.  The report handed
    back is the received buffer as it is; its checksum byte is not looked
    at. *)
Theorem razer_get_usb_response_result usb_dev report_index request_report
    response_index response_report wait_min wait_max
    (w w1 w2 w3 : world) (p : ptr) (retval : Z) (tr_send : list event)
    (len : Z) (received : list byte) :
  handle _ (kzalloc 90) w = (Some p, w1) ->
  run handle (razer_send_control_msg usb_dev request_report report_index
                wait_min wait_max) w1 = (retval, w2, tr_send) ->
  handle _ (usb_control_msg (get_report_msg usb_dev response_index p)) w2
  = ((len, received), w3) ->
  let r := run handle (razer_get_usb_response usb_dev report_index
                         request_report response_index response_report
                         wait_min wait_max) w in
  (fst (fst (fst r)) = 1 <-> len <> 90)
  /\ (fst (fst (fst r)) = 0 <-> len = 90)
  /\ snd (fst (fst r))
     = memcpy response_report (receive_into (replicate 90 x00) received) 90
  /\ exists tail,
       snd r = Event (kzalloc 90) (Some p)
               :: tr_send
               ++ Event (usb_control_msg
                           (get_report_msg usb_dev response_index p))
                        (len, received)
               :: Event (kfree p) tt :: tail.
Proof.
  intros E1 E2 E3.
  destruct (run_get_usb_response usb_dev report_index request_report
              response_index response_report wait_min wait_max
              w w1 w2 w3 p retval tr_send len received E1 E2 E3)
    as (w' & tail & Hrun & _).
  cbn zeta. rewrite Hrun. cbn [fst snd].
  destruct (Z.eqb_spec len 90) as [Heq|Hne].
  - repeat split; try lia; try discriminate. eauto.
  - repeat split; try lia; try discriminate; try contradiction. eauto.
Qed.

(** C10.  The receive buffer is copied into the caller's [response_report]
    before the length is checked: when the transfer reports something other
    than 90 bytes and 1 is returned, a 90-byte [response_report] has been
    replaced by the bytes received followed by the zeros the buffer was
    allocated with, and by 90 zeros when nothing was received. *)
Theorem razer_get_usb_response_overwrites usb_dev report_index request_report
    response_index response_report wait_min wait_max
    (w w1 w2 w3 : world) (p : ptr) (retval : Z) (tr_send : list event)
    (len : Z) (received : list byte) :
  handle _ (kzalloc 90) w = (Some p, w1) ->
  run handle (razer_send_control_msg usb_dev request_report report_index
                wait_min wait_max) w1 = (retval, w2, tr_send) ->
  handle _ (usb_control_msg (get_report_msg usb_dev response_index p)) w2
  = ((len, received), w3) ->
  len <> 90 ->
  length response_report = 90%nat ->
  let r := run handle (razer_get_usb_response usb_dev report_index
                         request_report response_index response_report
                         wait_min wait_max) w in
  fst (fst r)
  = (1, take 90 (received ++ replicate (90 - length received) x00))
  /\ (received = [] -> snd (fst (fst r)) = replicate 90 x00).
Proof.
  intros E1 E2 E3 Hlen Hresp.
  destruct (run_get_usb_response usb_dev report_index request_report
              response_index response_report wait_min wait_max
              w w1 w2 w3 p retval tr_send len received E1 E2 E3)
    as (w' & tail & Hrun & _).
  cbn zeta. rewrite Hrun. cbn [fst snd].
  destruct (Z.eqb_spec len 90) as [Heq|_]; [contradiction|].
  rewrite memcpy_all;
    [|now rewrite length_receive_into, length_replicate|exact Hresp].
  rewrite receive_into_zeros. split; [reflexivity|].
  intros ->. reflexivity.
Qed.

End TransportFacts.

(** *** The transport claims on scripted devices *)

Section TransportWitnesses.
Import Codec Transport.

(** The run of a closed program on a script, evaluated. *)
Ltac evaluated x := let v := eval vm_compute in x in exact v.

Lemma razer_send_control_msg_result_witness :
  (Forall int_range
     (usb_results (snd (run scripted
                          (razer_send_control_msg 0 sample_report 2 600 800)
                          accepting_script)))
   /\ fst (fst (run scripted
                  (razer_send_control_msg 0 sample_report 2 600 800)
                  accepting_script)) = 0)
  /\ (Forall int_range
        (usb_results (snd (run scripted
                             (razer_send_control_msg 0 sample_report 2 600 800)
                             stalled_send_script)))
      /\ fst (fst (run scripted
                     (razer_send_control_msg 0 sample_report 2 600 800)
                     stalled_send_script)) = - 32).
Proof.
  split.
  - assert (Hu : usb_results
                   (snd (run scripted
                           (razer_send_control_msg 0 sample_report 2 600 800)
                           accepting_script)) = [90])
      by (vm_compute; reflexivity).
    assert (Hr : Forall int_range
                   (usb_results
                      (snd (run scripted
                              (razer_send_control_msg 0 sample_report 2 600 800)
                              accepting_script)))).
    { rewrite Hu. repeat constructor; unfold int_range; lia. }
    split; [exact Hr|].
    pose proof (proj1 (proj2 (razer_send_control_msg_result scripted
                  0%nat sample_report 2 600 800 accepting_script) Hr)) as H.
    cbn zeta in H. exact (proj2 H Hu).
  - assert (Hu : usb_results
                   (snd (run scripted
                           (razer_send_control_msg 0 sample_report 2 600 800)
                           stalled_send_script)) = [- 32])
      by (vm_compute; reflexivity).
    assert (Hr : Forall int_range
                   (usb_results
                      (snd (run scripted
                              (razer_send_control_msg 0 sample_report 2 600 800)
                              stalled_send_script)))).
    { rewrite Hu. repeat constructor; unfold int_range; lia. }
    split; [exact Hr|].
    pose proof (proj1 (proj2 (proj2 (razer_send_control_msg_result scripted
                  0%nat sample_report 2 600 800 stalled_send_script) Hr)))
      as H.
    cbn zeta in H. apply (H (- 32) Hu). lia.
Defined.

Lemma razer_get_usb_response_result_witness :
  fst (fst (run scripted (razer_send_control_msg 0 sample_report 2 600 800)
              {| script_alloc := [Some 2%nat];
                 script_usb := [(- EIO, []); (90, bad_crc_report)] |}))
  = - EIO
  /\ fst (fst (fst (run scripted
                      (razer_get_usb_response 0 2 sample_report 2
                         (replicate 90 xff) 600 800)
                      failing_send_script))) = 0
  /\ snd (fst (fst (run scripted
                      (razer_get_usb_response 0 2 sample_report 2
                         (replicate 90 xff) 600 800)
                      failing_send_script))) = bad_crc_report
  /\ razer_calculate_crc bad_crc_report
     <> Z_of_byte (nth 88 bad_crc_report x00).
Proof.
  split; [vm_compute; reflexivity|].
  assert (E1 : scripted _ (kzalloc 90) failing_send_script
               = (Some 1%nat,
                  {| script_alloc := [Some 2%nat];
                     script_usb := [(- EIO, []); (90, bad_crc_report)] |}))
    by (vm_compute; reflexivity).
  pose (sent := run scripted (razer_send_control_msg 0 sample_report 2 600 800)
                  {| script_alloc := [Some 2%nat];
                     script_usb := [(- EIO, []); (90, bad_crc_report)] |}).
  assert (E2 : sent = ltac:(evaluated sent)) by (vm_compute; reflexivity).
  unfold sent in E2.
  assert (E3 : scripted _ (usb_control_msg (get_report_msg 0 2 1%nat))
                 {| script_alloc := []; script_usb := [(90, bad_crc_report)] |}
               = ((90, bad_crc_report),
                  {| script_alloc := []; script_usb := [] |}))
    by (vm_compute; reflexivity).
  pose proof (razer_get_usb_response_result scripted 0%nat 2 sample_report 2
                (replicate 90 xff) 600 800 _ _ _ _ _ _ _ _ _ E1 E2 E3) as H.
  cbn zeta in H. destruct H as (_ & H0 & Hreport & _).
  split; [apply H0; reflexivity|].
  split; [rewrite Hreport; vm_compute; reflexivity|].
  vm_compute. discriminate.
Defined.

Lemma razer_get_usb_response_overwrites_witness :
  - 32 <> 90
  /\ length sample_report = 90%nat
  /\ fst (fst (run scripted
                 (razer_get_usb_response 0 2 sample_report 2
                    sample_report 600 800)
                 stalled_script))
     = (1, take 90 ([] ++ replicate (90 - 0) x00))
  /\ snd (fst (fst (run scripted
                      (razer_get_usb_response 0 2 sample_report 2
                         sample_report 600 800)
                      stalled_script)))
     = replicate 90 x00.
Proof.
  assert (Hne : - 32 <> 90) by lia.
  assert (Hlen : length sample_report = 90%nat) by (vm_compute; reflexivity).
  split; [exact Hne|]. split; [exact Hlen|].
  assert (E1 : scripted _ (kzalloc 90) stalled_script
               = (Some 1%nat,
                  {| script_alloc := [Some 2%nat];
                     script_usb := [(- 32, []); (- 32, [])] |}))
    by (vm_compute; reflexivity).
  pose (sent := run scripted (razer_send_control_msg 0 sample_report 2 600 800)
                  {| script_alloc := [Some 2%nat];
                     script_usb := [(- 32, []); (- 32, [])] |}).
  assert (E2 : sent = ltac:(evaluated sent)) by (vm_compute; reflexivity).
  unfold sent in E2.
  assert (E3 : scripted _ (usb_control_msg (get_report_msg 0 2 1%nat))
                 {| script_alloc := []; script_usb := [(- 32, [])] |}
               = ((- 32, []), {| script_alloc := []; script_usb := [] |}))
    by (vm_compute; reflexivity).
  pose proof (razer_get_usb_response_overwrites scripted 0%nat 2 sample_report 2
                sample_report 600 800 _ _ _ _ _ _ _ _ _ E1 E2 E3 Hne Hlen)
    as H.
  cbn zeta in H. destruct H as (Hall & Hzero).
  split; [exact Hall|]. exact (Hzero eq_refl).
Defined.

End TransportWitnesses.

(** * Further properties *)

(** ** Report codec *)

Section CodecMore.
Import Codec.

Lemma Z_of_byte_of_Z z : 0 <= z < 256 -> Z_of_byte (byte_of_Z z) = z.
Proof.
  intros Hz. unfold byte_of_Z. rewrite Z.mod_small by lia.
  destruct (Byte.of_N (Z.to_N z)) as [b|] eqn:E.
  - apply Byte.to_of_N in E. unfold Z_of_byte. cbn. rewrite E. lia.
  - apply Byte.of_N_None_iff in E. lia.
Qed.

Lemma razer_calculate_crc_range report :
  (88 <= length report)%nat -> 0 <= razer_calculate_crc report < 256.
Proof.
  intros H. rewrite razer_calculate_crc_xor_fold by exact H.
  apply xor_fold_range.
Qed.

Lemma checksum_window_lookup report i :
  (2 <= i < 88)%nat ->
  checksum_window report !! (i - 2)%nat = report !! i.
Proof.
  intros Hi. unfold checksum_window.
  rewrite lookup_take_lt by lia. rewrite lookup_drop. f_equal. lia.
Qed.

(** X1.  Storing the computed checksum into the crc byte (offset 88) of a
    90-byte report does not change what [razer_calculate_crc] returns, so
    the stored byte then equals the checksum of the frame it is in. *)
Theorem razer_calculate_crc_stamp (report : razer_report) :
  length report = 90%nat ->
  let stamped := <[88%nat := byte_of_Z (razer_calculate_crc report)]> report in
  razer_calculate_crc stamped = razer_calculate_crc report
  /\ Z_of_byte (nth 88 stamped x00) = razer_calculate_crc stamped.
Proof.
  intros Hlen stamped.
  assert (Hsame : razer_calculate_crc stamped = razer_calculate_crc report).
  { unfold stamped.
    rewrite !razer_calculate_crc_xor_fold by (rewrite ?length_insert; lia).
    rewrite checksum_window_insert_outside by lia. reflexivity. }
  split; [exact Hsame|].
  rewrite Hsame. unfold stamped.
  rewrite nth_lookup, list_lookup_insert_eq by lia.
  unfold default. cbn [from_option].
  apply Z_of_byte_of_Z, razer_calculate_crc_range. lia.
Qed.

Lemma razer_calculate_crc_stamp_witness :
  length sample_report = 90%nat
  /\ razer_calculate_crc
       (<[88%nat := byte_of_Z (razer_calculate_crc sample_report)]> sample_report)
     = razer_calculate_crc sample_report
  /\ Z_of_byte
       (nth 88 (<[88%nat := byte_of_Z (razer_calculate_crc sample_report)]>
                  sample_report) x00)
     = razer_calculate_crc
         (<[88%nat := byte_of_Z (razer_calculate_crc sample_report)]>
            sample_report).
Proof.
  split; [reflexivity|].
  exact (razer_calculate_crc_stamp sample_report eq_refl).
Defined.

(** X2.  Replacing the byte at one offset in 2..87 by [b] changes the
    checksum by exactly the XOR of the old and the new byte. *)
Theorem razer_calculate_crc_single_byte (report : razer_report) (i : nat)
    (old b : byte) :
  length report = 90%nat -> (2 <= i <= 87)%nat -> report !! i = Some old ->
  razer_calculate_crc (<[i := b]> report)
  = Z.lxor (razer_calculate_crc report)
           (Z.lxor (Z_of_byte old) (Z_of_byte b)).
Proof.
  intros Hlen Hi Hold.
  rewrite !razer_calculate_crc_xor_fold by (rewrite ?length_insert; lia).
  rewrite checksum_window_insert_inside by lia.
  apply xor_fold_insert. rewrite checksum_window_lookup by lia. exact Hold.
Qed.

Lemma razer_calculate_crc_single_byte_witness :
  length sample_report = 90%nat /\ (2 <= 5 <= 87)%nat
  /\ sample_report !! 5%nat = Some x03
  /\ razer_calculate_crc (<[5%nat := x07]> sample_report)
     = Z.lxor (razer_calculate_crc sample_report)
              (Z.lxor (Z_of_byte x03) (Z_of_byte x07)).
Proof.
  split; [reflexivity|]. split; [lia|]. split; [reflexivity|].
  apply (razer_calculate_crc_single_byte sample_report 5 x03 x07);
    [reflexivity|lia|reflexivity].
Defined.

(** X3.  The checksum does not see two bytes of the window changing
    places: exchanging the bytes at two offsets in 2..87 leaves it as it
    was. *)
Theorem razer_calculate_crc_swap (report : razer_report) (i j : nat)
    (bi bj : byte) :
  length report = 90%nat -> (2 <= i <= 87)%nat -> (2 <= j <= 87)%nat ->
  report !! i = Some bi -> report !! j = Some bj ->
  razer_calculate_crc (<[i := bj]> (<[j := bi]> report))
  = razer_calculate_crc report.
Proof.
  intros Hlen Hi Hj Hbi Hbj.
  rewrite !razer_calculate_crc_xor_fold by (rewrite ?length_insert; lia).
  rewrite !checksum_window_insert_inside by lia.
  assert (Hi' : <[(j - 2)%nat := bi]> (checksum_window report) !! (i - 2)%nat
                = Some bi).
  { destruct (decide (i = j)) as [->|Hne].
    - apply list_lookup_insert_eq. unfold checksum_window.
      rewrite length_take, length_drop. lia.
    - rewrite list_lookup_insert_ne by lia.
      rewrite checksum_window_lookup by lia. exact Hbi. }
  rewrite (xor_fold_insert _ _ bi bj Hi').
  rewrite (xor_fold_insert _ (j - 2)%nat bj bi)
    by (rewrite checksum_window_lookup by lia; exact Hbj).
  lxor_bits.
Qed.

Lemma razer_calculate_crc_swap_witness :
  length sample_report = 90%nat /\ (2 <= 5 <= 87)%nat /\ (2 <= 9 <= 87)%nat
  /\ sample_report !! 5%nat = Some x03 /\ sample_report !! 9%nat = Some x05
  /\ razer_calculate_crc (<[5%nat := x05]> (<[9%nat := x03]> sample_report))
     = razer_calculate_crc sample_report.
Proof.
  split; [reflexivity|]. split; [lia|]. split; [lia|].
  split; [reflexivity|]. split; [reflexivity|].
  apply (razer_calculate_crc_swap sample_report 5 9 x03 x05);
    [reflexivity|lia|lia|reflexivity|reflexivity].
Defined.

End CodecMore.

(** ** Key-translation registry *)

Section RegistryMore.
Import Registry.


Lemma bindings_of_buffer_lookup buf n k :
  (k < n)%nat -> bindings_of_buffer buf n !! k = Some (binding_at buf k).
Proof.
  intros Hk. unfold bindings_of_buffer.
  rewrite list_lookup_fmap, lookup_seq_lt by lia. reflexivity.
Qed.

(** The two readers only use the member that [razer_get_device] finds. *)
Lemma razer_get_translation_device translations id key :
  razer_get_translation translations id key
  = match snd <$> razer_get_device translations id with
    | Some device => scan_translations (dev_translations device) key 0
    | None => None
    end.
Proof.
  unfold razer_get_translation.
  destruct (razer_get_device translations id) as [[it d]|]; reflexivity.
Qed.

Lemma razer_get_translations_device translations id (out : buffer) :
  razer_get_translations translations id out
  = match snd <$> razer_get_device translations id with
    | Some device =>
        fold_left (dump_binding (dev_translations device) (sizeof_u16 * 2))
                  (seq 0 (length (dev_translations device))) (out, 0%nat)
    | None => (store_bytes out 0 [x00], 1%nat)
    end.
Proof.
  unfold razer_get_translations.
  destruct (razer_get_device translations id) as [[it d]|]; reflexivity.
Qed.

(** *** Members with another id *)

Lemma razer_get_device_insert_other translations id' it d d' :
  translations !! it = Some d -> dev_id d <> id' -> dev_id d' <> id' ->
  snd <$> razer_get_device (<[it := d']> translations) id'
  = snd <$> razer_get_device translations id'.
Proof.
  revert it. induction translations as [|ptr rest IH]; intros it Hl Hd Hd'.
  - discriminate.
  - destruct it as [|it]; cbn in Hl.
    + injection Hl as ->. cbn.
      destruct (Z.eqb_spec (dev_id d') id'); [contradiction|].
      destruct (Z.eqb_spec (dev_id d) id'); [contradiction|]. reflexivity.
    + change (<[S it := d']> (ptr :: rest)) with (ptr :: <[it := d']> rest).
      cbn [razer_get_device].
      destruct (dev_id ptr =? id'); [reflexivity|].
      specialize (IH it Hl Hd Hd').
      destruct (razer_get_device (<[it := d']> rest) id') as [[? ?]|];
        destruct (razer_get_device rest id') as [[? ?]|]; cbn in *; congruence.
Qed.

Lemma razer_get_device_delete_other translations id' it d :
  translations !! it = Some d -> dev_id d <> id' ->
  snd <$> razer_get_device (delete it translations) id'
  = snd <$> razer_get_device translations id'.
Proof.
  revert it. induction translations as [|ptr rest IH]; intros it Hl Hd.
  - discriminate.
  - destruct it as [|it]; cbn in Hl.
    + injection Hl as ->. cbn.
      destruct (Z.eqb_spec (dev_id d) id'); [contradiction|].
      destruct (razer_get_device rest id') as [[? ?]|]; reflexivity.
    + change (delete (S it) (ptr :: rest)) with (ptr :: delete it rest).
      cbn [razer_get_device].
      destruct (dev_id ptr =? id'); [reflexivity|].
      specialize (IH it Hl Hd).
      destruct (razer_get_device (delete it rest) id') as [[? ?]|];
        destruct (razer_get_device rest id') as [[? ?]|]; cbn in *; congruence.
Qed.

Lemma replace_bindings_other translations id id' trs :
  id' <> id ->
  snd <$> razer_get_device (replace_bindings translations id trs) id'
  = snd <$> razer_get_device translations id'.
Proof.
  intros Hne. unfold replace_bindings.
  destruct (razer_get_device translations id) as [[it d]|] eqn:E.
  - destruct (razer_get_device_Some _ _ _ _ E) as (Hl & Hid & _).
    apply (razer_get_device_insert_other _ _ _ d); [exact Hl| |];
      cbn [set_translations dev_id]; congruence.
  - cbn. destruct (Z.eqb_spec id id'); [congruence|].
    destruct (razer_get_device translations id') as [[? ?]|]; reflexivity.
Qed.



(** X5.  A write for one id leaves every other id as it was: the set found
    for another id, what [razer_get_translation] returns for it and what
    [razer_get_translations] dumps for it are unchanged. *)
Theorem razer_set_translations_other_ids translations id id' (buf : list byte)
    c translations' ev :
  id' <> id ->
  razer_set_translations translations id buf = Some (c, translations', ev) ->
  snd <$> razer_get_device translations' id'
  = snd <$> razer_get_device translations id'
  /\ (forall key, razer_get_translation translations' id' key
                  = razer_get_translation translations id' key)
  /\ (forall out : buffer, razer_get_translations translations' id' out
                           = razer_get_translations translations id' out).
Proof.
  intros Hne H.
  assert (Hdev : snd <$> razer_get_device translations' id'
                 = snd <$> razer_get_device translations id').
  { apply razer_set_translations_cases in H
      as [(_ & -> & _)|[(_ & _ & it & d & E & ->)|(_ & _ & ->)]].
    - reflexivity.
    - destruct (razer_get_device_Some _ _ _ _ E) as (Hl & Hid & _).
      apply (razer_get_device_delete_other _ _ _ d Hl). congruence.
    - now apply replace_bindings_other. }
  split; [exact Hdev|]. split.
  - intros key. now rewrite !razer_get_translation_device, Hdev.
  - intros out. now rewrite !razer_get_translations_device, Hdev.
Qed.

Lemma razer_set_translations_other_ids_witness :
  8 <> 7
  /\ razer_set_translations
       [naga_device; {| dev_id := 8; dev_translations := [zero_translation] |}]
       7 [x00]
     = Some (1, [{| dev_id := 8; dev_translations := [zero_translation] |}],
             razer_free_translations naga_device
             ++ [kfree (device_struct naga_device);
                 printk "razercommon: [Translations] clear translations for device %d count %d should be 0!\n"
                        [7; 0]])
  /\ razer_get_translation
       [{| dev_id := 8; dev_translations := [zero_translation] |}] 8 0
     = razer_get_translation
         [naga_device; {| dev_id := 8; dev_translations := [zero_translation] |}]
         8 0.
Proof.
  assert (Hne : 8 <> 7) by lia.
  assert (E : razer_set_translations
       [naga_device; {| dev_id := 8; dev_translations := [zero_translation] |}]
       7 [x00]
     = Some (1, [{| dev_id := 8; dev_translations := [zero_translation] |}],
             razer_free_translations naga_device
             ++ [kfree (device_struct naga_device);
                 printk "razercommon: [Translations] clear translations for device %d count %d should be 0!\n"
                        [7; 0]])) by reflexivity.
  split; [exact Hne|]. split; [exact E|].
  exact (proj1 (proj2 (razer_set_translations_other_ids _ 7 8 _ _ _ _ Hne E)) 0).
Defined.

(** X6.  After a write of an even-length buffer, [razer_get_translation]
    for the id answers from the pairs of that buffer: the first pair whose
    source keycode is the key, with its position and flags 0, and NULL when
    no pair has that source keycode. *)
Theorem set_then_lookup translations id (buf : list byte) key
    c translations' ev :
  (length buf mod 2 = 0)%nat ->
  razer_set_translations translations id buf = Some (c, translations', ev) ->
  (forall k, (k < length buf / 4)%nat ->
      from (binding_at buf k) = key ->
      (forall j, (j < k)%nat -> from (binding_at buf j) <> key) ->
      razer_get_translation translations' id key = Some (k, binding_at buf k))
  /\ ((forall k, (k < length buf / 4)%nat -> from (binding_at buf k) <> key) ->
      razer_get_translation translations' id key = None).
Proof.
  intros Heven H.
  destruct (razer_set_translations_even translations id buf Heven) as [ev' E].
  rewrite E in H.
  assert (translations'
          = replace_bindings translations id
              (bindings_of_buffer buf (length buf / 4))) as -> by congruence.
  clear H E. set (n := (length buf / 4)%nat).
  destruct (razer_get_device_replace translations id (bindings_of_buffer buf n))
    as [it Hit].
  unfold razer_get_translation. rewrite Hit. cbn [dev_translations]. split.
  - intros k Hk Hfrom Hbefore. apply scan_translations_Some.
    exists k. split; [reflexivity|].
    split; [now apply bindings_of_buffer_lookup|]. split; [exact Hfrom|].
    intros j e' Hj He'. rewrite bindings_of_buffer_lookup in He' by lia.
    injection He' as <-. now apply Hbefore.
  - intros Hnone. apply scan_translations_None, Forall_forall.
    intros e He. apply list_elem_of_lookup in He as [k Hk].
    assert (k < n)%nat.
    { apply lookup_lt_Some in Hk. now rewrite length_bindings_of_buffer in Hk. }
    rewrite bindings_of_buffer_lookup in Hk by lia. injection Hk as <-.
    now apply Hnone.
Qed.

Lemma set_then_lookup_witness :
  (length naga_buffer mod 2 = 0)%nat
  /\ razer_set_translations [naga_device] 7 naga_buffer
     = Some (0, [{| dev_id := 7;
                    dev_translations := bindings_of_buffer naga_buffer 2 |}],
             razer_free_translations naga_device
             ++ kzalloc (translations_array 2)
                :: replicate 2 (kzalloc (key_translation zero_translation))
             ++ [printk "razercommon: [Translations] %d is count of translations for device id %d\n"
                        [1; 7]])
  /\ razer_get_translation
       [{| dev_id := 7; dev_translations := bindings_of_buffer naga_buffer 2 |}]
       7 3
     = Some (1%nat, {| from := 3; to := 48; flags := 0 |})
  /\ razer_get_translation
       [{| dev_id := 7; dev_translations := bindings_of_buffer naga_buffer 2 |}]
       7 99
     = None.
Proof.
  assert (Heven : (length naga_buffer mod 2 = 0)%nat) by reflexivity.
  assert (E : razer_set_translations [naga_device] 7 naga_buffer
     = Some (0, [{| dev_id := 7;
                    dev_translations := bindings_of_buffer naga_buffer 2 |}],
             razer_free_translations naga_device
             ++ kzalloc (translations_array 2)
                :: replicate 2 (kzalloc (key_translation zero_translation))
             ++ [printk "razercommon: [Translations] %d is count of translations for device id %d\n"
                        [1; 7]])) by reflexivity.
  split; [exact Heven|]. split; [exact E|]. split.
  - apply (proj1 (set_then_lookup _ 7 naga_buffer 3 _ _ _ Heven E) 1%nat).
    + cbn. lia.
    + reflexivity.
    + intros j Hj. assert (j = 0%nat) as -> by lia. cbn. discriminate.
  - apply (proj2 (set_then_lookup _ 7 naga_buffer 99 _ _ _ Heven E)).
    intros k Hk. cbn in Hk.
    assert (k = 0%nat \/ k = 1%nat) as [->| ->] by lia; cbn; discriminate.
Defined.

Lemma replace_bindings_twice translations id trs1 trs2 :
  replace_bindings (replace_bindings translations id trs1) id trs2
  = replace_bindings translations id trs2.
Proof.
  unfold replace_bindings at 1 3.
  destruct (razer_get_device_replace translations id trs1) as [it' Hit'].
  rewrite Hit'. unfold replace_bindings in *.
  destruct (razer_get_device translations id) as [[it d]|] eqn:E.
  - destruct (razer_get_device_Some _ _ _ _ E) as (_ & Hid & _).
    rewrite (razer_get_device_insert _ _ _ _ (set_translations trs1 d) E Hid)
      in Hit'.
    injection Hit' as <-. rewrite list_insert_insert_eq.
    unfold set_translations. cbn [dev_id]. now rewrite Hid.
  - cbn in Hit'. rewrite Z.eqb_refl in Hit'. injection Hit' as <-.
    reflexivity.
Qed.

(** X7.  The last write wins: two even-length writes for the same id, one
    after the other, leave the registry exactly as the second write alone
    would; in particular writing the same buffer twice is the same as
    writing it once. *)
Theorem razer_set_translations_overwrite translations id (buf1 buf2 : list byte) :
  (length buf1 mod 2 = 0)%nat -> (length buf2 mod 2 = 0)%nat ->
  write_all translations [(id, buf1); (id, buf2)]
  = write_all translations [(id, buf2)]
  /\ write_all translations [(id, buf2); (id, buf2)]
     = write_all translations [(id, buf2)].
Proof.
  intros H1 H2.
  assert (Hgen : forall b, (length b mod 2 = 0)%nat ->
            write_all translations [(id, b); (id, buf2)]
            = write_all translations [(id, buf2)]).
  { intros b Hb. cbn [write_all].
    destruct (razer_set_translations_even translations id b Hb) as [ev1 ->].
    cbn [mbind option_bind].
    destruct (razer_set_translations_even
                (replace_bindings translations id
                   (bindings_of_buffer b (length b / 4))) id buf2 H2)
      as [ev2 ->].
    destruct (razer_set_translations_even translations id buf2 H2) as [ev3 ->].
    cbn [mbind option_bind]. now rewrite replace_bindings_twice. }
  split; [now apply Hgen|now apply Hgen].
Qed.

Lemma razer_set_translations_overwrite_witness :
  (length [x09; x00; x0a; x00] mod 2 = 0)%nat
  /\ (length naga_buffer mod 2 = 0)%nat
  /\ write_all [naga_device] [(7, [x09; x00; x0a; x00]); (7, naga_buffer)]
     = write_all [naga_device] [(7, naga_buffer)].
Proof.
  split; [reflexivity|]. split; [reflexivity|].
  exact (proj1 (razer_set_translations_overwrite [naga_device] 7
                  [x09; x00; x0a; x00] naga_buffer eq_refl eq_refl)).
Defined.

(** *** Allocations *)

(** The kernel calls of an accepted write, by the state of the id. *)
Lemma razer_set_translations_even_events translations id (buf : list byte) :
  (length buf mod 2 = 0)%nat ->
  let n := (length buf / 4)%nat in
  let translations' :=
    replace_bindings translations id (bindings_of_buffer buf n) in
  let msg :=
    printk "razercommon: [Translations] %d is count of translations for device id %d\n"
           [razer_count_translations translations' id; id] in
  razer_set_translations translations id buf
  = Some (0, translations',
          match razer_get_device translations id with
          | None =>
              kzalloc (device_struct {| dev_id := 0; dev_translations := [] |})
              :: kzalloc (translations_array n)
              :: replicate n (kzalloc (key_translation zero_translation))
              ++ [msg]
          | Some (_, d) =>
              if decide (length (dev_translations d) = n) then [msg]
              else
                (map (fun e => kfree (key_translation e)) (dev_translations d)
                 ++ [kfree (translations_array (length (dev_translations d)))])
                ++ (kzalloc (translations_array n)
                    :: replicate n (kzalloc (key_translation zero_translation)))
                ++ [msg]
          end).
Proof.
  intros Heven. cbn zeta.
  unfold razer_set_translations, replace_bindings.
  unfold sizeof_u8, sizeof_u16. change (2 * 2)%nat with 4%nat.
  destruct (Nat.eqb_spec (length buf) 1) as [H1|_];
    [rewrite H1 in Heven; discriminate|].
  rewrite Heven. cbn [Nat.eqb negb].
  set (n := (length buf / 4)%nat).
  destruct (razer_get_device translations id) as [[it d]|] eqn:E.
  - rewrite E. cbn [mbind option_bind].
    destruct (decide (length (dev_translations d) = n)) as [Hlen|Hlen].
    + rewrite Hlen, Nat.eqb_refl. cbn [negb].
      rewrite set_bindings_spec by exact Hlen. reflexivity.
    + destruct (Nat.eqb_spec (length (dev_translations d)) n);
        [contradiction|]. cbn [negb].
      unfold razer_alloc_translations, razer_free_translations,
        set_translations.
      cbn [dev_translations dev_id].
      rewrite set_bindings_spec by apply length_replicate.
      rewrite <- !app_assoc. reflexivity.
  - unfold razer_alloc_translations.
    cbn [razer_get_device set_translations dev_translations dev_id].
    rewrite Z.eqb_refl. unfold set_translations.
    cbn [mbind option_bind dev_translations dev_id].
    rewrite length_replicate, Nat.eqb_refl. cbn [negb].
    rewrite set_bindings_spec by apply length_replicate.
    reflexivity.
Qed.

(** X8.  An accepted write allocates by need.  With no set bound to the id
    it allocates the set, an array and one block per entry.  With a set of
    the same number of entries it allocates and frees nothing.  With a set
    of another number of entries it frees every old entry and the old array,
    then allocates a new array and one block per entry; the set itself is
    kept. *)
Theorem razer_set_translations_allocations translations id (buf : list byte) :
  (length buf mod 2 = 0)%nat ->
  exists translations' msg,
    let n := (length buf / 4)%nat in
    is_kzalloc msg = false /\ is_kfree msg = false
    /\ razer_set_translations translations id buf
       = Some (0, translations',
               match razer_get_device translations id with
               | None =>
                   kzalloc (device_struct
                              {| dev_id := 0; dev_translations := [] |})
                   :: kzalloc (translations_array n)
                   :: replicate n (kzalloc (key_translation zero_translation))
                   ++ [msg]
               | Some (_, d) =>
                   if decide (length (dev_translations d) = n) then [msg]
                   else
                     (map (fun e => kfree (key_translation e))
                          (dev_translations d)
                      ++ [kfree (translations_array
                                   (length (dev_translations d)))])
                     ++ (kzalloc (translations_array n)
                         :: replicate n
                              (kzalloc (key_translation zero_translation)))
                     ++ [msg]
               end).
Proof.
  intros Heven. eexists _, _. cbn zeta.
  split; [|split; [|apply (razer_set_translations_even_events _ _ _ Heven)]];
    reflexivity.
Qed.

Lemma razer_set_translations_allocations_witness :
  (length naga_buffer mod 2 = 0)%nat
  /\ exists translations' msg,
       is_kzalloc msg = false /\ is_kfree msg = false
       /\ razer_set_translations [naga_device] 7 naga_buffer
          = Some (0, translations',
                  (map (fun e => kfree (key_translation e))
                       (dev_translations naga_device)
                   ++ [kfree (translations_array 3)])
                  ++ (kzalloc (translations_array 2)
                      :: replicate 2 (kzalloc (key_translation zero_translation)))
                  ++ [msg]).
Proof.
  split; [reflexivity|].
  exact (razer_set_translations_allocations [naga_device] 7 naga_buffer eq_refl).
Defined.

Lemma kzalloc_count_app ev1 ev2 :
  kzalloc_count (ev1 ++ ev2) = (kzalloc_count ev1 + kzalloc_count ev2)%nat.
Proof. unfold kzalloc_count. now rewrite List.filter_app, length_app. Qed.

Lemma kfree_count_app ev1 ev2 :
  kfree_count (ev1 ++ ev2) = (kfree_count ev1 + kfree_count ev2)%nat.
Proof. unfold kfree_count. now rewrite List.filter_app, length_app. Qed.

Lemma count_replicate_kzalloc n o :
  kzalloc_count (replicate n (kzalloc o)) = n
  /\ kfree_count (replicate n (kzalloc o)) = 0%nat.
Proof.
  unfold kzalloc_count, kfree_count.
  induction n as [|n [IH1 IH2]]; cbn; [auto|]. now rewrite IH1, IH2.
Qed.

Lemma count_map_kfree (trs : list razer_key_translation) :
  kzalloc_count (map (fun e => kfree (key_translation e)) trs) = 0%nat
  /\ kfree_count (map (fun e => kfree (key_translation e)) trs) = length trs.
Proof.
  unfold kzalloc_count, kfree_count.
  induction trs as [|e trs [IH1 IH2]]; cbn; [auto|]. now rewrite IH1, IH2.
Qed.

Lemma count_razer_free_translations d :
  kzalloc_count (razer_free_translations d) = 0%nat
  /\ kfree_count (razer_free_translations d)
     = S (length (dev_translations d)).
Proof.
  unfold razer_free_translations.
  rewrite kzalloc_count_app, kfree_count_app.
  destruct (count_map_kfree (dev_translations d)) as [-> ->].
  cbn. split; lia.
Qed.

Lemma live_blocks_insert translations it d d' :
  translations !! it = Some d ->
  (live_blocks (<[it := d']> translations) + blocks_of d
   = live_blocks translations + blocks_of d')%nat.
Proof.
  unfold live_blocks. revert it.
  induction translations as [|x rest IH]; intros [|it] H; try discriminate.
  - cbn in H. injection H as ->. cbn. lia.
  - cbn in H. change (<[S it := d']> (x :: rest)) with (x :: <[it := d']> rest).
    cbn [fmap list_fmap sum_list]. specialize (IH it H).
    change (list_fmap _ _ blocks_of) with (fmap (M := list) blocks_of) in *.
    lia.
Qed.

Lemma live_blocks_delete translations it d :
  translations !! it = Some d ->
  (live_blocks (delete it translations) + blocks_of d
   = live_blocks translations)%nat.
Proof.
  unfold live_blocks. revert it.
  induction translations as [|x rest IH]; intros [|it] H; try discriminate.
  - cbn in H. injection H as ->. cbn. lia.
  - cbn in H. change (delete (S it) (x :: rest)) with (x :: delete it rest).
    cbn [fmap list_fmap sum_list]. specialize (IH it H).
    change (list_fmap _ _ blocks_of) with (fmap (M := list) blocks_of) in *.
    lia.
Qed.

(** Every call allocates as many blocks as the registry gains and frees as
    many as it loses. *)
Ltac count_events :=
  unfold kzalloc_count, kfree_count;
  cbn [List.filter is_kzalloc is_kfree length].

Lemma razer_set_translations_balance translations id (buf : list byte)
    c translations' ev :
  razer_set_translations translations id buf = Some (c, translations', ev) ->
  (kzalloc_count ev + live_blocks translations
   = kfree_count ev + live_blocks translations')%nat.
Proof.
  intros H.
  pose proof (Nat.mod_upper_bound (length buf) 2 ltac:(lia)) as Hm.
  destruct (length buf mod 2)%nat as [|[|m]] eqn:Hmod; [| |lia].
  - pose proof (razer_set_translations_even_events translations id buf Hmod)
      as E.
    cbn zeta in E. rewrite E in H. clear E.
    set (n := (length buf / 4)%nat) in *.
    assert (Hr : translations'
                 = replace_bindings translations id (bindings_of_buffer buf n))
      by congruence.
    assert (Hev : ev = match razer_get_device translations id with
          | None =>
              kzalloc (device_struct {| dev_id := 0; dev_translations := [] |})
              :: kzalloc (translations_array n)
              :: replicate n (kzalloc (key_translation zero_translation))
              ++ [printk "razercommon: [Translations] %d is count of translations for device id %d\n"
                         [razer_count_translations
                            (replace_bindings translations id
                               (bindings_of_buffer buf n)) id; id]]
          | Some (_, d) =>
              if decide (length (dev_translations d) = n)
              then [printk "razercommon: [Translations] %d is count of translations for device id %d\n"
                         [razer_count_translations
                            (replace_bindings translations id
                               (bindings_of_buffer buf n)) id; id]]
              else
                (map (fun e => kfree (key_translation e)) (dev_translations d)
                 ++ [kfree (translations_array (length (dev_translations d)))])
                ++ (kzalloc (translations_array n)
                    :: replicate n (kzalloc (key_translation zero_translation)))
                ++ [printk "razercommon: [Translations] %d is count of translations for device id %d\n"
                         [razer_count_translations
                            (replace_bindings translations id
                               (bindings_of_buffer buf n)) id; id]]
          end) by congruence.
    clear H. subst translations' ev. unfold replace_bindings.
    destruct (razer_get_device translations id) as [[it d]|] eqn:Edev.
    + destruct (razer_get_device_Some _ _ _ _ Edev) as (Hl & _ & _).
      pose proof (live_blocks_insert translations it d
                    (set_translations (bindings_of_buffer buf n) d) Hl) as Hlive.
      unfold blocks_of in Hlive. cbn [set_translations dev_translations] in Hlive.
      rewrite length_bindings_of_buffer in Hlive.
      destruct (decide (length (dev_translations d) = n)) as [Hlen|Hlen].
      * count_events. lia.
      * rewrite !kzalloc_count_app, !kfree_count_app.
        change (kzalloc (translations_array n) :: ?l)
          with ([kzalloc (translations_array n)] ++ l).
        rewrite !kzalloc_count_app, !kfree_count_app.
        destruct (count_map_kfree (dev_translations d)) as [-> ->].
        destruct (count_replicate_kzalloc n (key_translation zero_translation))
          as [-> ->].
        count_events. lia.
    + change (kzalloc ?a :: kzalloc ?b :: ?l ++ ?m)
        with ([kzalloc a; kzalloc b] ++ l ++ m).
      rewrite !kzalloc_count_app, !kfree_count_app.
      destruct (count_replicate_kzalloc n (key_translation zero_translation))
        as [-> ->].
      unfold live_blocks, blocks_of.
      cbn [fmap list_fmap sum_list dev_translations].
      rewrite length_bindings_of_buffer. count_events.
      change (list_fmap _ _ ?f) with (fmap (M := list) f).
      unfold Datatypes.id. lia.
  - destruct (decide (length buf = 1%nat)) as [H1|H1].
    + destruct buf as [|b [|? ?]]; try discriminate.
      destruct (razer_get_device translations id) as [[it d]|] eqn:E.
      * rewrite (razer_set_translations_delete _ _ _ _ _ E) in H.
        assert (Hr : translations' = delete it translations) by congruence.
        assert (Hev : ev = razer_free_translations d
                  ++ [kfree (device_struct d);
                      printk "razercommon: [Translations] clear translations for device %d count %d should be 0!\n"
                             [id; razer_count_translations
                                    (delete it translations) id]])
          by congruence.
        subst. destruct (razer_get_device_Some _ _ _ _ E) as (Hl & _ & _).
        pose proof (live_blocks_delete translations it d Hl) as Hlive.
        unfold blocks_of in Hlive.
        rewrite kzalloc_count_app, kfree_count_app.
        destruct (count_razer_free_translations d) as [-> ->].
        count_events. lia.
      * rewrite (razer_set_translations_delete_absent _ _ _ E) in H.
        assert (translations' = translations) as -> by congruence.
        assert (ev = []) as -> by congruence. reflexivity.
    + rewrite razer_set_translations_odd in H; [|exact Hmod|exact H1].
      assert (translations' = translations) as -> by congruence.
      assert (ev = []) as -> by congruence. reflexivity.
Qed.

Lemma write_all_events_balance writes translations :
  exists translations' ev,
    write_all_events translations writes = Some (translations', ev)
    /\ (kzalloc_count ev + live_blocks translations
        = kfree_count ev + live_blocks translations')%nat.
Proof.
  revert translations. induction writes as [|[id buf] rest IH];
    intros translations; cbn [write_all_events].
  - exists translations, []. split; reflexivity.
  - destruct (razer_set_translations_total translations id buf)
      as [[[c r1] ev1] E].
    rewrite E. cbn [mbind option_bind].
    destruct (IH r1) as (r2 & ev2 & -> & Hbal). cbn [mbind option_bind].
    exists r2, (ev1 ++ ev2). split; [reflexivity|].
    pose proof (razer_set_translations_balance _ _ _ _ _ _ E).
    rewrite kzalloc_count_app, kfree_count_app. lia.
Qed.

(** *** [razer_cleanup_translations] *)

Lemma cleanup_loop_spec (members translations : list razer_device_translations)
    (ev : list kevent) :
  fold_left cleanup_step members (translations, ev)
  = (drop (length members) translations,
     ev ++ concat ((fun d => razer_free_translations d
                             ++ [kfree (device_struct d)]) <$> members)).
Proof.
  revert translations ev. induction members as [|d rest IH];
    intros translations ev; cbn [fold_left cleanup_step].
  - cbn. now rewrite app_nil_r.
  - rewrite IH. f_equal.
    + destruct translations; cbn; [now rewrite drop_nil|reflexivity].
    + cbn [fmap list_fmap concat]. now rewrite <- !app_assoc.
Qed.

Lemma razer_cleanup_translations_spec translations :
  razer_cleanup_translations translations
  = ([], concat ((fun d => razer_free_translations d
                           ++ [kfree (device_struct d)]) <$> translations)).
Proof.
  unfold razer_cleanup_translations.
  destruct translations as [|d rest] eqn:E; [reflexivity|].
  rewrite <- E. rewrite cleanup_loop_spec. now rewrite drop_all.
Qed.

Lemma count_cleanup_events translations :
  let ev := concat ((fun d => razer_free_translations d
                              ++ [kfree (device_struct d)]) <$> translations) in
  kzalloc_count ev = 0%nat /\ kfree_count ev = live_blocks translations.
Proof.
  cbn zeta. unfold live_blocks.
  induction translations as [|d rest [IH1 IH2]]; [split; reflexivity|].
  cbn [fmap list_fmap concat sum_list].
  rewrite !kzalloc_count_app, !kfree_count_app.
  destruct (count_razer_free_translations d) as [-> ->].
  change (list_fmap _ _ ?f) with (fmap (M := list) f) in *.
  rewrite IH1, IH2. unfold blocks_of. cbn. split; lia.
Qed.

(** X9.  Nothing leaks over the life of a registry: after any sequence of
    writes from the empty registry, the allocations made exceed the releases
    by exactly the blocks the registry still holds, and once
    [razer_cleanup_translations] has run every allocation has been matched
    by a release. *)
Theorem write_all_then_cleanup_balanced (writes : list (Z * list byte)) :
  exists translations ev,
    write_all_events razer_init_translations writes = Some (translations, ev)
    /\ kzalloc_count ev = (kfree_count ev + live_blocks translations)%nat
    /\ kzalloc_count (ev ++ snd (razer_cleanup_translations translations))
       = kfree_count (ev ++ snd (razer_cleanup_translations translations)).
Proof.
  destruct (write_all_events_balance writes razer_init_translations)
    as (r & ev & E & Hbal).
  exists r, ev. split; [exact E|].
  assert (H0 : kzalloc_count ev = (kfree_count ev + live_blocks r)%nat).
  { cbn in Hbal. lia. }
  split; [exact H0|].
  rewrite razer_cleanup_translations_spec. cbn [snd].
  rewrite kzalloc_count_app, kfree_count_app.
  destruct (count_cleanup_events r) as [-> ->]. lia.
Qed.

(** X10.  [razer_cleanup_translations] empties the registry.  It visits
    the members in list order and for each one frees its entries, its array
    and its struct; it allocates nothing and frees exactly the blocks the
    registry held. *)
Theorem razer_cleanup_translations_frees_all translations :
  fst (razer_cleanup_translations translations) = []
  /\ snd (razer_cleanup_translations translations)
     = concat ((fun d =>
                  map (fun e => kfree (key_translation e)) (dev_translations d)
                  ++ [kfree (translations_array (length (dev_translations d)));
                      kfree (device_struct d)]) <$> translations)
  /\ kzalloc_count (snd (razer_cleanup_translations translations)) = 0%nat
  /\ kfree_count (snd (razer_cleanup_translations translations))
     = live_blocks translations.
Proof.
  rewrite razer_cleanup_translations_spec. cbn [fst snd].
  destruct (count_cleanup_events translations) as [H1 H2].
  split; [reflexivity|]. split; [|split; assumption].
  f_equal. apply list_fmap_ext. intros i d _.
  unfold razer_free_translations. now rewrite <- app_assoc.
Qed.

(** *** [razer_count_translations] and the ids of a registry *)

Lemma count_loop_spec translations id (i : Z) :
  0 <= i < 256 ->
  fold_left (fun i ptr => if dev_id ptr =? id then (i + 1) mod 256 else i)
            translations i
  = (i + Z.of_nat (length (List.filter (fun d => dev_id d =? id) translations)))
    mod 256.
Proof.
  revert i. induction translations as [|d rest IH]; intros i Hi;
    cbn [fold_left List.filter].
  - cbn. rewrite Z.add_0_r. symmetry. now apply Z.mod_small.
  - destruct (dev_id d =? id).
    + rewrite IH by (apply Z.mod_pos_bound; lia).
      rewrite Z.add_mod_idemp_l by lia. f_equal. cbn [length]. lia.
    + now apply IH.
Qed.

Lemma members_with_id_distinct translations id :
  distinct_ids translations ->
  length (List.filter (fun d => dev_id d =? id) translations)
  = match razer_get_device translations id with
    | Some _ => 1%nat
    | None => 0%nat
    end.
Proof.
  unfold distinct_ids.
  induction translations as [|d rest IH]; intros Hnd; [reflexivity|].
  cbn in Hnd. apply NoDup_cons in Hnd as [Hnotin Hnd].
  cbn [List.filter razer_get_device].
  destruct (Z.eqb_spec (dev_id d) id) as [Heq|Hne].
  - cbn [length]. rewrite IH by exact Hnd.
    rewrite <- Heq in *.
    apply razer_get_device_ids in Hnotin. now rewrite Hnotin.
  - rewrite IH by exact Hnd.
    destruct (razer_get_device rest id) as [[? ?]|]; reflexivity.
Qed.

(** X11.  [razer_count_translations] returns the number of members with
    the id, modulo 256 (the counter is a u8).  In a registry reached from the
    empty one by any sequence of writes it is 1 when a set is bound to the id
    and 0 when none is, so the count logged after a delete is 0. *)
Theorem razer_count_translations_spec :
  (forall translations id,
      razer_count_translations translations id
      = Z.of_nat (length (List.filter (fun d => dev_id d =? id) translations))
        mod 256)
  /\ (forall writes translations id,
        write_all razer_init_translations writes = Some translations ->
        razer_count_translations translations id
        = match razer_get_device translations id with
          | Some _ => 1
          | None => 0
          end)
  /\ (forall writes translations id (b : byte) c translations' ev,
        write_all razer_init_translations writes = Some translations ->
        razer_set_translations translations id [b]
        = Some (c, translations', ev) ->
        razer_count_translations translations' id = 0).
Proof.
  assert (Hgen : forall translations id,
      razer_count_translations translations id
      = Z.of_nat (length (List.filter (fun d => dev_id d =? id) translations))
        mod 256).
  { intros translations id. unfold razer_count_translations.
    now rewrite count_loop_spec by lia. }
  assert (Hdist : forall translations id, distinct_ids translations ->
      razer_count_translations translations id
      = match razer_get_device translations id with
        | Some _ => 1
        | None => 0
        end).
  { intros translations id Hnd.
    rewrite Hgen, (members_with_id_distinct _ _ Hnd).
    destruct (razer_get_device translations id); reflexivity. }
  split; [exact Hgen|]. split.
  - intros writes translations id Hreach. apply Hdist.
    eapply write_all_distinct_ids; [|exact Hreach]. constructor.
  - intros writes translations id b c translations' ev Hreach Hset.
    assert (Hnd : distinct_ids translations).
    { eapply write_all_distinct_ids; [|exact Hreach]. constructor. }
    assert (Hnd' : distinct_ids translations').
    { eapply razer_set_translations_distinct_ids; eauto. }
    rewrite (Hdist _ _ Hnd').
    destruct (razer_get_device translations id) as [[it d]|] eqn:E.
    + rewrite (razer_set_translations_delete _ _ _ _ _ E) in Hset.
      assert (translations' = delete it translations) as -> by congruence.
      now rewrite (razer_get_device_delete _ _ _ _ Hnd E).
    + rewrite (razer_set_translations_delete_absent _ _ _ E) in Hset.
      assert (translations' = translations) as -> by congruence.
      now rewrite E.
Qed.

Lemma razer_count_translations_spec_witness :
  write_all razer_init_translations naga_writes
  = Some [{| dev_id := 8;
             dev_translations := [{| from := 4; to := 5; flags := 0 |}] |}]
  /\ razer_count_translations
       [{| dev_id := 8;
           dev_translations := [{| from := 4; to := 5; flags := 0 |}] |}] 8
     = 1
  /\ razer_count_translations
       (replicate 257 {| dev_id := 8; dev_translations := [] |}) 8
     = Z.of_nat (length (List.filter (fun d => dev_id d =? 8)
                           (replicate 257
                              {| dev_id := 8; dev_translations := [] |})))
       mod 256.
Proof.
  assert (E : write_all razer_init_translations naga_writes
    = Some [{| dev_id := 8;
               dev_translations := [{| from := 4; to := 5; flags := 0 |}] |}])
    by (vm_compute; reflexivity).
  split; [exact E|]. split.
  - exact (proj1 (proj2 razer_count_translations_spec) naga_writes _ 8 E).
  - exact (proj1 razer_count_translations_spec _ 8).
Defined.

(** X12.  The length [razer_get_translations] returns tells the two cases
    apart: it is four times the number of entries when a set is bound to the
    id, and it is 1 exactly when no set is bound. *)
Theorem razer_get_translations_length translations id (out : buffer) :
  match razer_get_device translations id with
  | Some (_, device) =>
      snd (razer_get_translations translations id out)
      = (4 * length (dev_translations device))%nat
  | None => snd (razer_get_translations translations id out) = 1%nat
  end
  /\ (snd (razer_get_translations translations id out) = 1%nat
      <-> razer_get_device translations id = None).
Proof.
  destruct (razer_get_device translations id) as [[it d]|] eqn:E.
  - pose proof (razer_get_translations_found _ _ _ _ out E) as H.
    cbn zeta in H. destruct H as (Hsize & _).
    split; [exact Hsize|]. rewrite Hsize. split; [lia|discriminate].
  - rewrite (razer_get_translations_absent _ _ out E). cbn [snd].
    split; [reflexivity|]. split; reflexivity.
Qed.

(** X13.  [razer_get_device] returns the first member of the list whose id
    is the one asked for, also when later members carry the same id, and
    NULL exactly when no member has it. *)
Theorem razer_get_device_first translations id :
  (forall it d,
      razer_get_device translations id = Some (it, d)
      <-> translations !! it = Some d /\ dev_id d = id
          /\ forall j d', (j < it)%nat -> translations !! j = Some d' ->
               dev_id d' <> id)
  /\ (razer_get_device translations id = None
      <-> forall d, d ∈ translations -> dev_id d <> id).
Proof.
  split.
  - intros it d. split; [apply razer_get_device_Some|].
    intros (Hl & Hid & Hbefore).
    destruct (razer_get_device translations id) as [[it' d']|] eqn:E.
    + destruct (razer_get_device_Some _ _ _ _ E) as (Hl' & Hid' & Hbefore').
      destruct (Nat.lt_trichotomy it it') as [Hlt|[->|Hgt]].
      * exfalso. exact (Hbefore' it d Hlt Hl Hid).
      * congruence.
      * exfalso. exact (Hbefore it' d' Hgt Hl' Hid').
    + apply razer_get_device_None in E. rewrite Forall_forall in E.
      exfalso. apply (E d); [|exact Hid].
      apply list_elem_of_lookup. now exists it.
  - rewrite razer_get_device_None, Forall_forall. reflexivity.
Qed.


(** X15.  After a one-byte write for an id, in a registry reached from the
    empty one, [razer_get_translation] finds no translation for any key of
    that id. *)
Theorem delete_then_lookup writes translations id (b : byte) key :
  write_all razer_init_translations writes = Some translations ->
  exists c translations' ev,
    razer_set_translations translations id [b] = Some (c, translations', ev)
    /\ razer_get_translation translations' id key = None.
Proof.
  intros Hreach.
  assert (Hnd : distinct_ids translations).
  { eapply write_all_distinct_ids; [|exact Hreach]. constructor. }
  unfold razer_get_translation.
  destruct (razer_get_device translations id) as [[it d]|] eqn:E.
  - eexists 1, (delete it translations), _.
    split; [apply (razer_set_translations_delete _ _ _ _ _ E)|].
    now rewrite (razer_get_device_delete _ _ _ _ Hnd E).
  - eexists 2, translations, _.
    split; [apply (razer_set_translations_delete_absent _ _ _ E)|].
    now rewrite E.
Qed.

Lemma delete_then_lookup_witness :
  write_all razer_init_translations [(7, naga_buffer)]
  = Some [{| dev_id := 7;
             dev_translations := bindings_of_buffer naga_buffer 2 |}]
  /\ exists c translations' ev,
       razer_set_translations
         [{| dev_id := 7;
             dev_translations := bindings_of_buffer naga_buffer 2 |}] 7 [x00]
       = Some (c, translations', ev)
       /\ razer_get_translation translations' 7 2 = None.
Proof.
  split; [reflexivity|].
  exact (delete_then_lookup [(7, naga_buffer)] _ 7 x00 2 eq_refl).
Defined.

End RegistryMore.

(** ** Numeric helpers *)

Section ClampFacts.
Import Clamp.

(** X16.  With [min <= max], [clamp_u8] and [clamp_u16] return a value
    between the bounds, return the value itself when it already lies between
    them, and clamping twice is clamping once. *)
Theorem clamp_within_bounds (value min max : Z) :
  min <= max ->
  (min <= clamp_u8 value min max <= max
   /\ min <= clamp_u16 value min max <= max)
  /\ (min <= value <= max ->
      clamp_u8 value min max = value /\ clamp_u16 value min max = value)
  /\ clamp_u8 (clamp_u8 value min max) min max = clamp_u8 value min max
  /\ clamp_u16 (clamp_u16 value min max) min max = clamp_u16 value min max.
Proof.
  intros Hb. unfold clamp_u8, clamp_u16.
  destruct (Z.gtb_spec value max) as [Hgt|Hle].
  - destruct (Z.gtb_spec max max); [lia|].
    destruct (Z.ltb_spec max min); [lia|].
    repeat split; intros; lia.
  - destruct (Z.ltb_spec value min) as [Hlt|Hge].
    + destruct (Z.gtb_spec min max); [lia|].
      destruct (Z.ltb_spec min min); [lia|].
      repeat split; intros; lia.
    + destruct (Z.gtb_spec value max); [lia|].
      destruct (Z.ltb_spec value min); [lia|].
      repeat split; intros; lia.
Qed.

Lemma clamp_within_bounds_witness :
  10 <= 200
  /\ (10 <= clamp_u8 255 10 200 <= 200 /\ 10 <= clamp_u16 255 10 200 <= 200)
  /\ clamp_u8 3 10 200 = 10.
Proof.
  assert (H : 10 <= 200) by lia.
  split; [exact H|]. split.
  - exact (proj1 (clamp_within_bounds 255 10 200 H)).
  - reflexivity.
Defined.

(** X17.  With the bounds the wrong way round ([max < min]) the upper bound
    is tested first: a value above [max] gives [max], any other value gives
    [min], so the value itself is never returned. *)
Theorem clamp_inverted_bounds (value min max : Z) :
  max < min ->
  (max < value ->
   clamp_u8 value min max = max /\ clamp_u16 value min max = max)
  /\ (value <= max ->
      clamp_u8 value min max = min /\ clamp_u16 value min max = min).
Proof.
  intros Hb. unfold clamp_u8, clamp_u16.
  destruct (Z.gtb_spec value max); destruct (Z.ltb_spec value min);
    repeat split; intros; lia.
Qed.

Lemma clamp_inverted_bounds_witness :
  100 < 200 /\ 100 < 150
  /\ clamp_u8 150 200 100 = 100 /\ clamp_u16 150 200 100 = 100.
Proof.
  assert (H : 100 < 200) by lia. assert (H' : 100 < 150) by lia.
  split; [exact H|]. split; [exact H'|].
  exact (proj1 (clamp_inverted_bounds 150 200 100 H) H').
Defined.

End ClampFacts.

(** ** USB transport *)

Section TransportMore.
Import Codec Transport.

Context {world : Type}.
Variable handle : forall X, kcall X -> world -> X * world.


Lemma allocated_app tr1 tr2 :
  allocated (tr1 ++ tr2) = allocated tr1 ++ allocated tr2.
Proof. apply omap_app. Qed.

Lemma freed_app tr1 tr2 : freed (tr1 ++ tr2) = freed tr1 ++ freed tr2.
Proof. apply omap_app. Qed.


(** The legacy sender, run against any environment: either the copy of the
    frame cannot be allocated, or the transfer, the wait and the release
    follow, with a log line when the length is not the one asked for. *)
Lemma run_send_control_msg_old_device usb_dev data report_value report_index
    report_size wait_min wait_max (w : world) :
  (exists w1,
      run handle (razer_send_control_msg_old_device usb_dev data report_value
                    report_index report_size wait_min wait_max) w
      = (- ENOMEM, w1, [Event (kmemdup data report_size) None]))
  \/ (exists (p : ptr) (m : control_msg) (len : Z) (rx : list byte) w' tail,
        run handle (razer_send_control_msg_old_device usb_dev data report_value
                      report_index report_size wait_min wait_max) w
        = ((if len <? 0 then len
            else if negb (uint_of_int len =? report_size) then - EIO else 0),
           w',
           Event (kmemdup data report_size) (Some p)
           :: Event (usb_control_msg m) (len, rx)
           :: Event (usleep_range wait_min wait_max) tt
           :: Event (kfree p) tt :: tail)
        /\ msg_pipe m = usb_sndctrlpipe usb_dev 0
        /\ msg_value m = report_value /\ msg_index m = report_index
        /\ msg_size m = report_size
        /\ msg_data m = (p, take (Z.to_nat report_size) data)
        /\ (tail = []
            \/ tail = [Event (printk "razer driver: Device data transfer failed."
                                     []) tt])).
Proof.
  unfold razer_send_control_msg_old_device. unfold call. cbn [bind run].
  destruct (handle _ (kmemdup data report_size) w) as [[p|] w1].
  - right. cbn [bind run].
    match goal with
    | |- context [handle _ (usb_control_msg ?m) w1] =>
        destruct (handle _ (usb_control_msg m) w1) as [[len rx] w2];
        exists p, m, len, rx
    end.
    cbn [bind run].
    destruct (handle unit (usleep_range wait_min wait_max) w2) as [[] w3].
    cbn [bind run].
    destruct (handle unit (kfree p) w3) as [[] w4].
    destruct (negb (uint_of_int len =? report_size)); cbn [bind run].
    + destruct (handle unit _ w4) as [[] w5].
      eexists _, _. split; [reflexivity|].
      cbn. repeat split. now right.
    + eexists _, _. split; [reflexivity|].
      cbn. repeat split. now left.
  - left. exists w1. reflexivity.
Qed.

(** X18.  [razer_send_control_msg] is [razer_send_control_msg_old_device]
    with value 0x300 and size [RAZER_USB_REPORT_LEN]: in every environment
    the two make the same calls and return the same result. *)
Theorem razer_send_control_msg_is_old_device usb_dev data report_index
    wait_min wait_max (w : world) :
  run handle (razer_send_control_msg usb_dev data report_index
                wait_min wait_max) w
  = run handle (razer_send_control_msg_old_device usb_dev data 0x300
                  report_index RAZER_USB_REPORT_LEN wait_min wait_max) w.
Proof. reflexivity. Qed.




(** *** The shape of every run *)

Lemma run_send_control_msg_shape usb_dev data report_index wait_min wait_max
    (w : world) :
  let r := run handle (razer_send_control_msg usb_dev data report_index
                         wait_min wait_max) w in
  (fst (fst r) = - ENOMEM /\ usb_results (snd r) = [] /\ allocated (snd r) = []
   /\ freed (snd r) = [] /\ io_order (snd r) = [])
  \/ (exists (q : ptr) (len : Z),
        usb_results (snd r) = [len] /\ allocated (snd r) = [q]
        /\ freed (snd r) = [q] /\ io_order (snd r) = [io_out; io_wait]).
Proof.
  cbn zeta.
  destruct (run_send_control_msg_old_device usb_dev data 0x300 report_index
              RAZER_USB_REPORT_LEN wait_min wait_max w)
    as [(w1 & E)|(p & m & len & rx & w' & tail & E & Hpipe & _ & _ & _ & _ & Htail)].
  - left. change (run handle (razer_send_control_msg usb_dev data report_index
                                wait_min wait_max) w
                  = (- ENOMEM, w1, [Event (kmemdup data RAZER_USB_REPORT_LEN) None]))
      in E.
    rewrite E. repeat split.
  - right. exists p, len.
    change (run handle (razer_send_control_msg usb_dev data report_index
                          wait_min wait_max) w
            = ((if len <? 0 then len
                else if negb (uint_of_int len =? RAZER_USB_REPORT_LEN)
                     then - EIO else 0), w',
               Event (kmemdup data RAZER_USB_REPORT_LEN) (Some p)
               :: Event (usb_control_msg m) (len, rx)
               :: Event (usleep_range wait_min wait_max) tt
               :: Event (kfree p) tt :: tail)) in E.
    rewrite E. cbn [fst snd].
    unfold usb_results, allocated, freed, io_order.
    cbn [omap list_omap usb_result allocated_block freed_block io_of fst].
    rewrite Hpipe. destruct Htail as [->| ->]; repeat split.
Qed.

Lemma run_get_usb_response_shape usb_dev report_index request_report
    response_index response_report wait_min wait_max (w : world) :
  (exists w1,
      run handle (razer_get_usb_response usb_dev report_index request_report
                    response_index response_report wait_min wait_max) w
      = ((- ENOMEM, response_report), w1, [Event (kzalloc 90) None]))
  \/ (exists (p : ptr) w1 retval w2 tr_send len received w' tail,
        run handle (razer_send_control_msg usb_dev request_report report_index
                      wait_min wait_max) w1 = (retval, w2, tr_send)
        /\ run handle (razer_get_usb_response usb_dev report_index
                         request_report response_index response_report
                         wait_min wait_max) w
           = ((if len =? 90 then 0 else 1,
               memcpy response_report
                      (receive_into (replicate 90 x00) received) 90),
              w',
              Event (kzalloc 90) (Some p)
              :: tr_send
              ++ Event (usb_control_msg
                          (get_report_msg usb_dev response_index p))
                       (len, received)
              :: Event (kfree p) tt :: tail)
        /\ usb_results tail = [] /\ allocated tail = [] /\ freed tail = []
        /\ io_order tail = []).
Proof.
  destruct (handle _ (kzalloc 90) w) as [[p|] w1] eqn:E1.
  - right.
    destruct (run handle (razer_send_control_msg usb_dev request_report
                            report_index wait_min wait_max) w1)
      as [[retval w2] tr_send] eqn:E2.
    destruct (handle _ (usb_control_msg
                          (get_report_msg usb_dev response_index p)) w2)
      as [[len received] w3] eqn:E3.
    exists p, w1, retval, w2, tr_send, len, received.
    unfold razer_get_usb_response, sizeof_razer_report, RAZER_USB_REPORT_LEN.
    unfold call at 1. cbn [bind run]. rewrite E1. cbn [bind run].
    rewrite run_bind, E2. unfold call. cbn [bind run].
    change (Z.lor (Z.lor USB_TYPE_CLASS USB_RECIP_INTERFACE) USB_DIR_IN)
      with 0xA1.
    change HID_REQ_GET_REPORT with 0x01.
    fold (get_report_msg usb_dev response_index p). rewrite E3.
    cbn [bind run].
    destruct (handle unit (kfree p) w3) as [[] w4].
    destruct (Z.eqb_spec len 90) as [->|Hne]; cbn [negb bind run].
    + eexists _, _. split; [reflexivity|]. split; [reflexivity|].
      repeat split.
    + destruct (handle unit _ w4) as [[] w5].
      eexists _, _. split; [reflexivity|]. split; [reflexivity|].
      repeat split.
  - left. exists w1.
    apply (run_get_usb_response_nomem handle usb_dev report_index
             request_report response_index response_report wait_min wait_max
             w w1 E1).
Qed.


(** X21.  [razer_get_usb_response] releases what it allocates: in every
    environment the blocks freed during the call are the blocks allocated
    during it, each once, and there are at most two of them. *)
Theorem razer_get_usb_response_frees usb_dev report_index request_report
    response_index response_report wait_min wait_max (w : world) :
  let r := run handle (razer_get_usb_response usb_dev report_index
                         request_report response_index response_report
                         wait_min wait_max) w in
  freed (snd r) ≡ₚ allocated (snd r)
  /\ (length (allocated (snd r)) <= 2)%nat.
Proof.
  cbn zeta.
  destruct (run_get_usb_response_shape usb_dev report_index request_report
              response_index response_report wait_min wait_max w)
    as [(w1 & ->)
       |(p & w1 & retval & w2 & tr_send & len & received & w' & tail
         & Esend & -> & _ & Ha & Hf & _)].
  - cbn. split; [reflexivity|lia].
  - cbn [fst snd].
    change (Event (kzalloc 90) (Some p) :: tr_send ++ ?l)
      with (([Event (kzalloc 90) (Some p)] ++ tr_send) ++ l).
    change (Event ?c (len, received) :: Event (kfree p) tt :: tail)
      with ([Event c (len, received); Event (kfree p) tt] ++ tail).
    rewrite !freed_app, !allocated_app, Ha, Hf, !app_nil_r.
    pose proof (run_send_control_msg_shape usb_dev request_report report_index
                  wait_min wait_max w1) as Hs.
    cbn zeta in Hs. rewrite Esend in Hs. cbn [fst snd] in Hs.
    destruct Hs as [(_ & _ & -> & -> & _)|(q & len1 & _ & -> & -> & _)].
    + cbn. split; [reflexivity|lia].
    + cbn. split; [apply Permutation_swap|lia].
Qed.


End TransportMore.

Section TransportMoreWitnesses.
Import Codec Transport.


End TransportMoreWitnesses.
